(** * CulturalVoting: a shallow embedding of the voting contract

    The contract [CulturalVoting] (Solidity ^0.8.24, listed in
    docs/cultural-voting.md) is embedded as pure functions over an explicit
    storage record.  Every external function takes [msg.sender] and
    [block.timestamp] as arguments and returns either the new storage or the
    reason of the revert.  Solidity 0.8 arithmetic is checked: an overflowing
    [uint8] addition reverts with [Panic(0x11)]. *)

From Stdlib Require Import ZArith String List Lia Sorted.
From stdpp Require Import gmap strings list fin_maps.

Open Scope Z_scope.

(** ** Reverts *)

(** One constructor per [require] message of the contract, plus the
    arithmetic panic of checked [uint8] arithmetic. *)
Inductive revert : Type :=
  | NotAuthorized           (* "Not authorized" *)
  | NotAuthorizedToVote     (* "Not authorized to vote" *)
  | VotingNotActive         (* "Voting not active" *)
  | VotingAlreadyActive     (* "Voting already active" *)
  | NoProjectsSelected      (* "No projects selected" *)
  | ProjectNotActive        (* "Project not active" *)
  | ScoreOutOfRange         (* "Score must be between 1-10" *)
  | ProjectNotInRound       (* "Project not in current round" *)
  | AlreadyVoted            (* "Already voted for this project" *)
  | ResultsAlreadyRevealed  (* "Results already revealed" *)
  | ArithmeticPanic.        (* Panic(0x11) *)

Definition reason (e : revert) : string :=
  match e with
  | NotAuthorized => "Not authorized"
  | NotAuthorizedToVote => "Not authorized to vote"
  | VotingNotActive => "Voting not active"
  | VotingAlreadyActive => "Voting already active"
  | NoProjectsSelected => "No projects selected"
  | ProjectNotActive => "Project not active"
  | ScoreOutOfRange => "Score must be between 1-10"
  | ProjectNotInRound => "Project not in current round"
  | AlreadyVoted => "Already voted for this project"
  | ResultsAlreadyRevealed => "Results already revealed"
  | ArithmeticPanic => "panic 0x11"
  end.

(** The error kinds of the design document, and the kind each revert of the
    contract belongs to.  The arithmetic panic has no kind there. *)
Inductive ErrorKind : Type :=
  | Unauthorized | AlreadyActive | NotActive | DuplicateSubmission
  | AlreadyProcessed | UnknownEntry | EntryNotInRound | NotFound
  | EmptySelection | OutOfRangeScore | InvalidProof | Mismatch.

Definition kind_of (e : revert) : option ErrorKind :=
  match e with
  | NotAuthorized | NotAuthorizedToVote => Some Unauthorized
  | VotingNotActive => Some NotActive
  | VotingAlreadyActive => Some AlreadyActive
  | NoProjectsSelected => Some EmptySelection
  | ProjectNotActive => Some UnknownEntry
  | ScoreOutOfRange => Some OutOfRangeScore
  | ProjectNotInRound => Some EntryNotInRound
  | AlreadyVoted => Some DuplicateSubmission
  | ResultsAlreadyRevealed => Some AlreadyProcessed
  | ArithmeticPanic => None
  end.

Inductive result (A : Type) : Type :=
  | OK (a : A)
  | Revert (e : revert).
Arguments OK {A} a.
Arguments Revert {A} e.

#[global] Instance result_ret : MRet result := fun A a => OK a.
#[global] Instance result_bind : MBind result := fun A B f m =>
  match m with
  | OK a => f a
  | Revert e => Revert e
  end.

Definition require (cond : bool) (e : revert) : result unit :=
  if cond then OK tt else Revert e.

(** [x + y] on [uint8], checked. *)
Definition checked_add8 (x y : Z) : result Z :=
  if x + y <=? 255 then OK (x + y) else Revert ArithmeticPanic.

Definition uint8 (x : Z) : Prop := 0 <= x <= 255.

(** ** Data *)

Abbreviation address := N (only parsing).

(** An encrypted handle; the contract never looks inside one. *)
Inductive euint8 : Type :=
  | Uninit
  | Enc (clear : Z).

Definition asEuint8 (x : Z) : euint8 := Enc x.

Record CulturalProject : Type := {
  name : string;
  description : string;
  category : string;
  proposer : address;
  isActive : bool;
  proposalTime : Z
}.

Record Vote : Type := {
  encryptedScore : euint8;
  hasVoted : bool;
  timestamp : Z
}.

Record VotingRound : Type := {
  projectIds : list Z;
  votingActive : bool;
  resultsRevealed : bool;
  startTime : Z;
  endTime : Z;
  voters : list address;
  winningProjectId : Z;
  maxScore : Z
}.

Inductive Event : Type :=
  | ProjectProposed (projectId : Z) (pname : string) (who : address)
  | VotingRoundStarted (rnd : Z) (ids : list Z) (start : Z)
  | VoteSubmitted (voter : address) (rnd : Z) (projectId : Z)
  | ResultsRevealed (rnd : Z) (winner : Z) (score : Z)
  | VoterAuthorized (voter : address)
  | VoterRevoked (voter : address).

(** The zero values read from an unwritten mapping slot. *)
Definition zeroProject : CulturalProject :=
  {| name := ""; description := ""; category := ""; proposer := 0%N;
     isActive := false; proposalTime := 0 |}.
Definition zeroVote : Vote :=
  {| encryptedScore := Uninit; hasVoted := false; timestamp := 0 |}.
Definition zeroRound : VotingRound :=
  {| projectIds := []; votingActive := false; resultsRevealed := false;
     startTime := 0; endTime := 0; voters := [];
     winningProjectId := 0; maxScore := 0 |}.

(** The storage of the contract.  [events] (oldest first) and
    [decryptionRequests] record the two effects that leave the contract:
    emitted events and the batches handed to [FHE.requestDecryption]. *)
Record State : Type := {
  admin : address;
  currentVotingRound : Z;
  projects : gmap Z CulturalProject;
  votingRounds : gmap Z VotingRound;
  votes : gmap (Z * Z * address) Vote;
  authorizedVoters : gmap address bool;
  totalProjects : Z;
  events : list Event;
  decryptionRequests : list (list euint8)
}.

Definition project (s : State) (id : Z) : CulturalProject :=
  default zeroProject (projects s !! id).
Definition round (s : State) (r : Z) : VotingRound :=
  default zeroRound (votingRounds s !! r).
Definition vote (s : State) (r pid : Z) (v : address) : Vote :=
  default zeroVote (votes s !! (r, pid, v)).
Definition authorized (s : State) (a : address) : bool :=
  default false (authorizedVoters s !! a).

Definition set_currentVotingRound (r : Z) (s : State) : State :=
  {| admin := admin s; currentVotingRound := r; projects := projects s;
     votingRounds := votingRounds s; votes := votes s;
     authorizedVoters := authorizedVoters s; totalProjects := totalProjects s;
     events := events s; decryptionRequests := decryptionRequests s |}.
Definition set_projects (m : gmap Z CulturalProject) (s : State) : State :=
  {| admin := admin s; currentVotingRound := currentVotingRound s; projects := m;
     votingRounds := votingRounds s; votes := votes s;
     authorizedVoters := authorizedVoters s; totalProjects := totalProjects s;
     events := events s; decryptionRequests := decryptionRequests s |}.
Definition set_votingRounds (m : gmap Z VotingRound) (s : State) : State :=
  {| admin := admin s; currentVotingRound := currentVotingRound s;
     projects := projects s; votingRounds := m; votes := votes s;
     authorizedVoters := authorizedVoters s; totalProjects := totalProjects s;
     events := events s; decryptionRequests := decryptionRequests s |}.
Definition set_votes (m : gmap (Z * Z * address) Vote) (s : State) : State :=
  {| admin := admin s; currentVotingRound := currentVotingRound s;
     projects := projects s; votingRounds := votingRounds s; votes := m;
     authorizedVoters := authorizedVoters s; totalProjects := totalProjects s;
     events := events s; decryptionRequests := decryptionRequests s |}.
Definition set_authorizedVoters (m : gmap address bool) (s : State) : State :=
  {| admin := admin s; currentVotingRound := currentVotingRound s;
     projects := projects s; votingRounds := votingRounds s; votes := votes s;
     authorizedVoters := m; totalProjects := totalProjects s;
     events := events s; decryptionRequests := decryptionRequests s |}.
Definition set_totalProjects (n : Z) (s : State) : State :=
  {| admin := admin s; currentVotingRound := currentVotingRound s;
     projects := projects s; votingRounds := votingRounds s; votes := votes s;
     authorizedVoters := authorizedVoters s; totalProjects := n;
     events := events s; decryptionRequests := decryptionRequests s |}.
Definition emit (e : Event) (s : State) : State :=
  {| admin := admin s; currentVotingRound := currentVotingRound s;
     projects := projects s; votingRounds := votingRounds s; votes := votes s;
     authorizedVoters := authorizedVoters s; totalProjects := totalProjects s;
     events := events s ++ [e]; decryptionRequests := decryptionRequests s |}.
Definition requestDecryption (cts : list euint8) (s : State) : State :=
  {| admin := admin s; currentVotingRound := currentVotingRound s;
     projects := projects s; votingRounds := votingRounds s; votes := votes s;
     authorizedVoters := authorizedVoters s; totalProjects := totalProjects s;
     events := events s; decryptionRequests := decryptionRequests s ++ [cts] |}.

(** [votingRounds[r].field = ...] through a storage reference. *)
Definition update_round (r : Z) (f : VotingRound -> VotingRound) (s : State) : State :=
  set_votingRounds (<[r := f (round s r)]> (votingRounds s)) s.

(** ** The contract *)

Definition constructor (sender : address) : State :=
  {| admin := sender; currentVotingRound := 1; projects := ∅; votingRounds := ∅;
     votes := ∅; authorizedVoters := {[sender := true]}; totalProjects := 0;
     events := []; decryptionRequests := [] |}.

Definition onlyAdmin (sender : address) (s : State) : result unit :=
  require (bool_decide (sender = admin s)) NotAuthorized.

Definition onlyAuthorizedVoter (sender : address) (s : State) : result unit :=
  require (authorized s sender) NotAuthorizedToVote.

Definition onlyDuringVoting (s : State) : result unit :=
  require (votingActive (round s (currentVotingRound s))) VotingNotActive.

Definition proposeProject (_name _description _category : string)
    (sender : address) (now : Z) (s : State) : result State :=
  n ← checked_add8 (totalProjects s) 1;
  let s1 := set_totalProjects n s in
  let s2 := set_projects
    (<[n := {| name := _name; description := _description; category := _category;
               proposer := sender; isActive := true; proposalTime := now |}]>
       (projects s1)) s1 in
  OK (emit (ProjectProposed n _name sender) s2).

Definition authorizeVoter (_voter : address) (sender : address) (s : State)
    : result State :=
  onlyAdmin sender s;;
  OK (emit (VoterAuthorized _voter)
        (set_authorizedVoters (<[_voter := true]> (authorizedVoters s)) s)).

Definition revokeVoter (_voter : address) (sender : address) (s : State)
    : result State :=
  onlyAdmin sender s;;
  OK (emit (VoterRevoked _voter)
        (set_authorizedVoters (<[_voter := false]> (authorizedVoters s)) s)).

(** The loop [require(projects[_projectIds[i]].isActive)] of
    [startVotingRound]. *)
Fixpoint require_all_active (s : State) (ids : list Z) : result unit :=
  match ids with
  | [] => OK tt
  | id :: rest =>
      require (isActive (project s id)) ProjectNotActive;;
      require_all_active s rest
  end.

Definition startVotingRound (_projectIds : list Z) (sender : address) (now : Z)
    (s : State) : result State :=
  onlyAdmin sender s;;
  require (negb (votingActive (round s (currentVotingRound s)))) VotingAlreadyActive;;
  require (0 <? Z.of_nat (length _projectIds)) NoProjectsSelected;;
  require_all_active s _projectIds;;
  let s1 := set_votingRounds
    (<[currentVotingRound s :=
         {| projectIds := _projectIds; votingActive := true;
            resultsRevealed := false; startTime := now; endTime := 0;
            voters := []; winningProjectId := 0; maxScore := 0 |}]>
       (votingRounds s)) s in
  OK (emit (VotingRoundStarted (currentVotingRound s) _projectIds now) s1).

Fixpoint _isProjectInRound (ids : list Z) (_projectId : Z) : bool :=
  match ids with
  | [] => false
  | id :: rest => if id =? _projectId then true else _isProjectInRound rest _projectId
  end.

Definition _isProjectInCurrentRound (s : State) (_projectId : Z) : bool :=
  _isProjectInRound (projectIds (round s (currentVotingRound s))) _projectId.

Fixpoint _isVoterInRound (vs : list address) (_voter : address) : bool :=
  match vs with
  | [] => false
  | v :: rest => if (v =? _voter)%N then true else _isVoterInRound rest _voter
  end.

Definition _addVoterToRound (_voter : address) (s : State) : State :=
  if _isVoterInRound (voters (round s (currentVotingRound s))) _voter then s
  else update_round (currentVotingRound s)
         (fun rd =>
            {| projectIds := projectIds rd; votingActive := votingActive rd;
               resultsRevealed := resultsRevealed rd; startTime := startTime rd;
               endTime := endTime rd; voters := voters rd ++ [_voter];
               winningProjectId := winningProjectId rd; maxScore := maxScore rd |})
         s.

(** [FHE.allowThis] and [FHE.allow] only extend the access list of the
    handle, which lives outside the contract's storage; they are not modelled. *)
Definition submitVote (_projectId _score : Z) (sender : address) (now : Z)
    (s : State) : result State :=
  onlyAuthorizedVoter sender s;;
  onlyDuringVoting s;;
  require ((1 <=? _score) && (_score <=? 10)) ScoreOutOfRange;;
  require (_isProjectInCurrentRound s _projectId) ProjectNotInRound;;
  require (negb (hasVoted (vote s (currentVotingRound s) _projectId sender)))
    AlreadyVoted;;
  let encrypted := asEuint8 _score in
  let s1 := set_votes
    (<[(currentVotingRound s, _projectId, sender) :=
         {| encryptedScore := encrypted; hasVoted := true; timestamp := now |}]>
       (votes s)) s in
  let s2 := _addVoterToRound sender s1 in
  OK (emit (VoteSubmitted sender (currentVotingRound s) _projectId) s2).

Definition _finalizeResults (_winningProject _maxScore : Z) (s : State)
    : result State :=
  let r := currentVotingRound s in
  let s1 := update_round r
    (fun rd =>
       {| projectIds := projectIds rd; votingActive := votingActive rd;
          resultsRevealed := true; startTime := startTime rd;
          endTime := endTime rd; voters := voters rd;
          winningProjectId := _winningProject; maxScore := _maxScore |}) s in
  let s2 := emit (ResultsRevealed r _winningProject _maxScore) s1 in
  r' ← checked_add8 r 1;
  OK (set_currentVotingRound r' s2).

(** The two passes of [_requestResultsDecryption] over projects and voters:
    the count [totalVotes], then the batch [cts]. *)
Definition count_votes (voted : Z -> address -> bool) (ids : list Z)
    (vs : list address) : Z :=
  fold_left (fun total pid =>
    fold_left (fun total v => if voted pid v then total + 1 else total) vs total)
    ids 0.

Definition collect_cts (voted : Z -> address -> bool)
    (handle : Z -> address -> euint8) (ids : list Z) (vs : list address)
    : list euint8 :=
  fold_left (fun cts pid =>
    fold_left (fun cts v => if voted pid v then cts ++ [handle pid v] else cts) vs cts)
    ids [].

Definition _requestResultsDecryption (s : State) : result State :=
  let r := currentVotingRound s in
  let rd := round s r in
  let voted := fun pid v => hasVoted (vote s r pid v) in
  let totalVotes := count_votes voted (projectIds rd) (voters rd) in
  let cts := collect_cts voted (fun pid v => encryptedScore (vote s r pid v))
               (projectIds rd) (voters rd) in
  if 0 <? totalVotes then OK (requestDecryption cts s)
  else _finalizeResults 0 0 s.

Definition endVotingRound (sender : address) (now : Z) (s : State) : result State :=
  onlyAdmin sender s;;
  require (votingActive (round s (currentVotingRound s))) VotingNotActive;;
  require (negb (resultsRevealed (round s (currentVotingRound s))))
    ResultsAlreadyRevealed;;
  let s1 := update_round (currentVotingRound s)
    (fun rd =>
       {| projectIds := projectIds rd; votingActive := false;
          resultsRevealed := resultsRevealed rd; startTime := startTime rd;
          endTime := now; voters := voters rd;
          winningProjectId := winningProjectId rd; maxScore := maxScore rd |}) s in
  _requestResultsDecryption s1.

(** The inner loop of [processResults]: one project's voters.  A vote takes
    the plaintext at [scoreIndex] when there is one left, and nothing
    otherwise. *)
Fixpoint tally_voters (voted : address -> bool) (decryptedScores : list Z)
    (vs : list address) (projectScore : Z) (scoreIndex : nat) : result (Z * nat) :=
  match vs with
  | [] => OK (projectScore, scoreIndex)
  | voter :: rest =>
      if voted voter then
        match decryptedScores !! scoreIndex with
        | Some d =>
            ps ← checked_add8 projectScore d;
            tally_voters voted decryptedScores rest ps (S scoreIndex)
        | None => tally_voters voted decryptedScores rest projectScore scoreIndex
        end
      else tally_voters voted decryptedScores rest projectScore scoreIndex
  end.

(** The outer loop of [processResults]: the projects in snapshot order. *)
Fixpoint tally_projects (voted : Z -> address -> bool) (decryptedScores : list Z)
    (vs : list address) (ids : list Z) (winningProject maxTotalScore : Z)
    (scoreIndex : nat) : result (Z * Z) :=
  match ids with
  | [] => OK (winningProject, maxTotalScore)
  | projectId :: rest =>
      r ← tally_voters (voted projectId) decryptedScores vs 0 scoreIndex;
      if maxTotalScore <? r.1
      then tally_projects voted decryptedScores vs rest projectId r.1 r.2
      else tally_projects voted decryptedScores vs rest winningProject maxTotalScore r.2
  end.

Definition tally (voted : Z -> address -> bool) (ids : list Z) (vs : list address)
    (decryptedScores : list Z) : result (Z * Z) :=
  tally_projects voted decryptedScores vs ids 0 0 0%nat.

Definition voted_in (s : State) (r : Z) : Z -> address -> bool :=
  fun pid v => hasVoted (vote s r pid v).

Definition processResults (requestId : Z) (decryptedScores : list Z)
    (signatures : list (list Z)) (sender : address) (now : Z) (s : State)
    : result State :=
  let r := currentVotingRound s in
  let rd := round s r in
  w ← tally (voted_in s r) (projectIds rd) (voters rd) decryptedScores;
  _finalizeResults w.1 w.2 s.

(** ** Transactions *)

Inductive Call : Type :=
  | ProposeProject (_name _description _category : string)
  | AuthorizeVoter (_voter : address)
  | RevokeVoter (_voter : address)
  | StartVotingRound (_projectIds : list Z)
  | SubmitVote (_projectId _score : Z)
  | EndVotingRound
  | ProcessResults (requestId : Z) (decryptedScores : list Z)
      (signatures : list (list Z)).

Record Tx : Type := { call : Call; sender : address; now : Z }.

Definition exec (t : Tx) (s : State) : result State :=
  match call t with
  | ProposeProject n d c => proposeProject n d c (sender t) (now t) s
  | AuthorizeVoter v => authorizeVoter v (sender t) s
  | RevokeVoter v => revokeVoter v (sender t) s
  | StartVotingRound ids => startVotingRound ids (sender t) (now t) s
  | SubmitVote pid sc => submitVote pid sc (sender t) (now t) s
  | EndVotingRound => endVotingRound (sender t) (now t) s
  | ProcessResults rid ds sigs => processResults rid ds sigs (sender t) (now t) s
  end.

(** A reverted transaction leaves the storage as it was. *)
Definition apply_tx (s : State) (t : Tx) : State :=
  match exec t s with
  | OK s' => s'
  | Revert _ => s
  end.

Definition run (txs : list Tx) (s : State) : State := fold_left apply_tx txs s.

Inductive reachable : State -> Prop :=
  | reachable_init deployer : reachable (constructor deployer)
  | reachable_step s t : reachable s -> reachable (apply_tx s t).

(** ** The tally as the design document words it *)

Definition sumZ (l : list Z) : Z := foldr Z.add 0 l.

(** The number of submitted votes of one entry, over the voter list. *)
Definition ballots (voted : address -> bool) (vs : list address) : nat :=
  length (List.filter voted vs).

(** Per-entry sums: each entry, in snapshot order, consumes as many
    plaintexts as it has submitted votes. *)
Fixpoint aggregates (voted : Z -> address -> bool) (vs : list address)
    (ids : list Z) (scores : list Z) : list Z :=
  match ids with
  | [] => []
  | pid :: rest =>
      let n := ballots (voted pid) vs in
      sumZ (take n scores) :: aggregates voted vs rest (drop n scores)
  end.

Definition max_aggregate (aggs : list Z) : Z := foldr Z.max 0 aggs.

(** The first entry, in snapshot order, whose aggregate is [m]. *)
Fixpoint first_achieving (m : Z) (ids aggs : list Z) : Z :=
  match ids, aggs with
  | pid :: ids', a :: aggs' =>
      if a =? m then pid else first_achieving m ids' aggs'
  | _, _ => 0
  end.

Definition first_max_entry (ids aggs : list Z) : Z :=
  first_achieving (max_aggregate aggs) ids aggs.

(** The number of encrypted scalars in the batch of the current round. *)
Definition batch_size (voted : Z -> address -> bool) (ids : list Z)
    (vs : list address) : nat :=
  length (collect_cts voted (fun _ _ => Uninit) ids vs).

(** The comparison of the outer loop over the entries and their sums, and
    the test that every sum fits [uint8]. *)
Fixpoint scan_max (ids aggs : list Z) (w m : Z) : Z * Z :=
  match ids, aggs with
  | pid :: ids', a :: aggs' =>
      if m <? a then scan_max ids' aggs' pid a else scan_max ids' aggs' w m
  | _, _ => (w, m)
  end.

Definition fits8 (aggs : list Z) : bool := forallb (fun a => a <=? 255) aggs.

(** The size of the batch as a sum over the entries. *)
Definition total_ballots (voted : Z -> address -> bool) (vs : list address)
    (ids : list Z) : nat :=
  foldr (fun pid acc => (ballots (voted pid) vs + acc)%nat) 0%nat ids.

(** The ids carried by the [ProjectProposed] events of a log, oldest first. *)
Definition proposed_ids (evs : list Event) : list Z :=
  omap (fun e => match e with ProjectProposed id _ _ => Some id | _ => None end) evs.

(** ** Invariants of the reachable storages *)

Record Inv (s : State) : Prop := {
  inv_total : 0 <= totalProjects s <= 255;
  inv_round : 1 <= currentVotingRound s <= 255;
  inv_active : forall id, 1 <= id <= totalProjects s -> isActive (project s id) = true;
  inv_fresh : forall id, ~ (1 <= id <= totalProjects s) -> projects s !! id = None;
  inv_ids : proposed_ids (events s)
            = Z.of_nat <$> seq 1 (Z.to_nat (totalProjects s));
  inv_future : forall r, currentVotingRound s < r -> round s r = zeroRound;
  inv_unrevealed : resultsRevealed (round s (currentVotingRound s)) = false
}.

(** ** Scenarios *)

Definition tx (c : Call) (a : address) (n : Z) : Tx :=
  {| call := c; sender := a; now := n |}.

Definition deployer : address := 1%N.
Definition alice : address := 2%N.
Definition bob : address := 3%N.
Definition carol : address := 4%N.
Definition oracle : address := 9%N.

(** Two entries, two authorized voters, a round open over both entries. *)
Definition open_round : list Tx :=
  [ tx (ProposeProject "Project A" "Description A" "Category A") carol 10;
    tx (ProposeProject "Project B" "Description B" "Category B") carol 11;
    tx (AuthorizeVoter alice) deployer 12;
    tx (AuthorizeVoter bob) deployer 13;
    tx (StartVotingRound [1; 2]) deployer 14 ].

(** Alice gives 8 to entry 1, Bob gives 9 to entry 2, and the round is closed:
    the batch [Enc 8; Enc 9] waits for the oracle. *)
Definition closed_round : list Tx :=
  open_round ++
  [ tx (SubmitVote 1 8) alice 15;
    tx (SubmitVote 2 9) bob 16;
    tx EndVotingRound deployer 17 ].

(** Alice and Bob both vote for entry 1; the round is closed. *)
Definition two_votes_one_entry : list Tx :=
  open_round ++
  [ tx (SubmitVote 1 10) alice 15;
    tx (SubmitVote 1 10) bob 16;
    tx EndVotingRound deployer 17 ].

(** The callback invoked 254 times in a row on a fresh contract, then an
    entry proposed and round 255 opened over it. *)
Definition last_round : list Tx :=
  repeat (tx (ProcessResults 0 [] []) oracle 20) 254 ++
  [ tx (ProposeProject "Project A" "Description A" "Category A") carol 21;
    tx (StartVotingRound [1]) deployer 22 ].

(** ** The view functions *)

Definition getCurrentRoundInfo (s : State) : Z * bool * bool * Z * Z * list Z :=
  let roundData := round s (currentVotingRound s) in
  (currentVotingRound s, votingActive roundData, resultsRevealed roundData,
   startTime roundData, endTime roundData, projectIds roundData).

Definition getProjectInfo (s : State) (_projectId : Z)
    : string * string * string * address * bool * Z :=
  let p := project s _projectId in
  (name p, description p, category p, proposer p, isActive p, proposalTime p).

Definition getVoteStatus (s : State) (_projectId : Z) (_voter : address) : bool * Z :=
  let v := vote s (currentVotingRound s) _projectId _voter in
  (hasVoted v, timestamp v).

Definition getRoundResults (s : State) (_round : Z) : bool * Z * Z * Z :=
  let rd := round s _round in
  (resultsRevealed rd, winningProjectId rd, maxScore rd, Z.of_nat (length (voters rd))).

Definition isAuthorizedVoter (s : State) (_voter : address) : bool :=
  authorized s _voter.

Definition getProjectVoteCount (s : State) (_projectId : Z) : Z :=
  fold_left
    (fun voteCount voter =>
       if hasVoted (vote s (currentVotingRound s) _projectId voter)
       then voteCount + 1 else voteCount)
    (voters (round s (currentVotingRound s))) 0.

Definition getCurrentRoundProjectIds (s : State) : list Z :=
  projectIds (round s (currentVotingRound s)).

Definition hasUserVotedForProject (s : State) (_projectId : Z) (_voter : address)
    : bool :=
  hasVoted (vote s (currentVotingRound s) _projectId _voter).

(** ** The votes behind a batch *)

(** The plaintext of a handle: [FHE.asEuint8 x] decrypts to [x]. *)
Definition decrypt (h : euint8) : Z :=
  match h with
  | Enc x => x
  | Uninit => 0
  end.

(** The handles of the votes cast for one entry of round [r], over the voter
    list of the round, and the sum of the scores they hold. *)
Definition cast_handles (s : State) (r pid : Z) : list euint8 :=
  map (fun v => encryptedScore (vote s r pid v))
    (List.filter (voted_in s r pid) (voters (round s r))).

Definition score_sum (s : State) (r pid : Z) : Z :=
  sumZ (map decrypt (cast_handles s r pid)).

(** The batch that closing round [r] hands to the oracle. *)
Definition batch_of (s : State) (r : Z) : list euint8 :=
  flat_map (cast_handles s r) (projectIds (round s r)).

(** ** The ledger kept by the reachable storages *)

Definition is_VoteSubmitted (e : Event) : bool :=
  match e with VoteSubmitted _ _ _ => true | _ => false end.

(** The round numbers carried by the [ResultsRevealed] events, oldest first. *)
Definition revealed_rounds (evs : list Event) : list Z :=
  omap (fun e => match e with ResultsRevealed r _ _ => Some r | _ => None end) evs.

Record Ledger (s : State) : Prop := {
  led_votes : forall r pid v x,
    votes s !! (r, pid, v) = Some x ->
    hasVoted x = true /\
    (exists sc, encryptedScore x = Enc sc /\ 1 <= sc <= 10) /\
    1 <= r <= currentVotingRound s /\ 1 <= pid <= totalProjects s;
  led_nodup : forall r, NoDup (voters (round s r));
  led_voters : forall r v,
    v ∈ voters (round s r) ->
    exists pid, pid ∈ projectIds (round s r) /\ hasVoted (vote s r pid v) = true;
  led_entries : forall r pid,
    pid ∈ projectIds (round s r) -> 1 <= pid <= totalProjects s;
  led_revealed : forall r,
    1 <= r < currentVotingRound s -> resultsRevealed (round s r) = true;
  led_before : forall r, r < 1 -> round s r = zeroRound;
  led_pending : forall r,
    currentVotingRound s <= r ->
    winningProjectId (round s r) = 0 /\ maxScore (round s r) = 0;
  led_winner : forall r,
    (winningProjectId (round s r) = 0 /\ maxScore (round s r) = 0) \/
    (winningProjectId (round s r) ∈ projectIds (round s r) /\
     0 < maxScore (round s r) <= 255);
  led_vote_events :
    size (votes s) = length (List.filter is_VoteSubmitted (events s));
  led_round_events :
    revealed_rounds (events s)
      = Z.of_nat <$> seq 1 (Z.to_nat (currentVotingRound s - 1))
}.

(** The storage with the log of the requests sent replaced: a function that
    gives the same result on both does not read the log. *)
Definition set_decryptionRequests (reqs : list (list euint8)) (s : State) : State :=
  {| admin := admin s; currentVotingRound := currentVotingRound s;
     projects := projects s; votingRounds := votingRounds s; votes := votes s;
     authorizedVoters := authorizedVoters s; totalProjects := totalProjects s;
     events := events s; decryptionRequests := reqs |}.

(** A transaction that calls [startVotingRound]. *)
Definition is_start (t : Tx) : bool :=
  match call t with StartVotingRound _ => true | _ => false end.

(** ** Lemmas on the monad and on checked arithmetic *)

Lemma bind_OK {A B} (m : result A) (f : A -> result B) b :
  m ≫= f = OK b -> exists a, m = OK a /\ f a = OK b.
Proof. destruct m as [a|e]; simpl; [eauto | discriminate]. Qed.

Lemma require_OK cond e : require cond e = OK tt -> cond = true.
Proof. by destruct cond. Qed.

Lemma checked_add8_OK x y z : checked_add8 x y = OK z -> z = x + y /\ x + y <= 255.
Proof.
  unfold checked_add8. destruct (x + y <=? 255) eqn:E; [|discriminate].
  intros [= <-]. split; [done | lia].
Qed.

Lemma checked_add8_fits x y : x + y <= 255 -> checked_add8 x y = OK (x + y).
Proof. intros H. unfold checked_add8. by rewrite (proj2 (Z.leb_le _ _) H). Qed.

Lemma checked_add8_overflow x y :
  255 < x + y -> checked_add8 x y = Revert ArithmeticPanic.
Proof. intros H. unfold checked_add8. by rewrite (proj2 (Z.leb_gt _ _) H). Qed.

(** ** The reduction of [processResults] *)

Lemma sumZ_nonneg l : Forall uint8 l -> 0 <= sumZ l.
Proof. induction 1 as [|x l Hx _ IH]; simpl; [lia | unfold uint8 in Hx; lia]. Qed.

Lemma foldr_max_base a b l :
  foldr Z.max (Z.max a b) l = Z.max a (foldr Z.max b l).
Proof. induction l as [|x l IH]; simpl; [done | rewrite IH; lia]. Qed.

Lemma foldr_max_ge b l : b <= foldr Z.max b l.
Proof. induction l as [|x l IH]; simpl; lia. Qed.

Lemma aggregates_length voted vs ids scores :
  length (aggregates voted vs ids scores) = length ids.
Proof. revert scores. induction ids as [|pid ids IH]; intros; simpl; [done | by rewrite IH]. Qed.

Lemma scan_max_spec ids : forall aggs w m,
  length ids = length aggs ->
  let M := foldr Z.max m aggs in
  scan_max ids aggs w m = (if m <? M then first_achieving M ids aggs else w, M).
Proof.
  induction ids as [|pid ids IH]; intros [|a aggs] w m Hlen; simpl in *; try discriminate.
  - by rewrite Z.ltb_irrefl.
  - injection Hlen as Hlen.
    pose proof (foldr_max_ge m aggs) as Hge.
    destruct (m <? a) eqn:Hma.
    + apply Z.ltb_lt in Hma. rewrite (IH aggs pid a Hlen).
      assert (foldr Z.max a aggs = Z.max a (foldr Z.max m aggs)) as ->.
      { rewrite <- foldr_max_base. f_equal. lia. }
      set (M := Z.max a (foldr Z.max m aggs)).
      assert ((m <? M) = true) as -> by (apply Z.ltb_lt; lia).
      destruct (a <? M) eqn:HaM.
      * apply Z.ltb_lt in HaM. rewrite (proj2 (Z.eqb_neq _ _)); [done | lia].
      * apply Z.ltb_ge in HaM. rewrite (proj2 (Z.eqb_eq _ _)); [done | lia].
    + apply Z.ltb_ge in Hma. rewrite (IH aggs w m Hlen).
      assert (Z.max a (foldr Z.max m aggs) = foldr Z.max m aggs) as -> by lia.
      destruct (m <? foldr Z.max m aggs) eqn:HmM; [|done].
      apply Z.ltb_lt in HmM. rewrite (proj2 (Z.eqb_neq _ _)); [done | lia].
Qed.

Section Reduction.

Variable scores : list Z.
Hypothesis scores_uint8 : Forall uint8 scores.
Variable vs : list address.

(** One entry's voters: the loop adds up the next [ballots] plaintexts that
    are left, and panics exactly when that sum leaves [uint8]. *)
Lemma tally_voters_spec (voted : address -> bool) :
  forall ps idx, ps <= 255 ->
  let n := ballots voted vs in
  let total := ps + sumZ (take n (drop idx scores)) in
  (total <= 255 ->
     exists idx', drop idx' scores = drop n (drop idx scores) /\
       tally_voters voted scores vs ps idx = OK (total, idx')) /\
  (255 < total -> tally_voters voted scores vs ps idx = Revert ArithmeticPanic).
Proof.
  unfold ballots.
  induction vs as [|v vs' IH]; intros ps idx Hps; simpl.
  - rewrite Z.add_0_r. split; [|lia]. intros _. by exists idx.
  - destruct (voted v) eqn:Hv; simpl; [|by apply IH].
    set (n := length (List.filter voted vs')) in *.
    destruct (scores !! idx) as [d|] eqn:Hd.
    + rewrite (drop_S _ _ _ Hd). simpl.
      assert (0 <= sumZ (take n (drop (S idx) scores))) as Hnn
        by (apply sumZ_nonneg, Forall_take, Forall_drop, scores_uint8).
      destruct (Z_le_gt_dec (ps + d) 255) as [Hle|Hgt].
      * rewrite (checked_add8_fits _ _ Hle). simpl.
        destruct (IH (ps + d) (S idx) Hle) as [Hfit Hpanic].
        rewrite !Z.add_assoc.
        split; intros Ht; [apply Hfit | apply Hpanic]; lia.
      * rewrite checked_add8_overflow by lia. simpl. split; [lia | done].
    + apply lookup_ge_None in Hd.
      destruct (IH ps idx Hps) as [Hfit Hpanic].
      rewrite (drop_ge scores idx) in * by lia.
      rewrite take_nil, drop_nil in *. simpl in *.
      split; intros Ht; [apply Hfit | apply Hpanic]; lia.
Qed.

(** The whole reduction from a given plaintext index on. *)
Lemma tally_projects_spec (voted : Z -> address -> bool) :
  forall ids w m idx,
  let aggs := aggregates voted vs ids (drop idx scores) in
  tally_projects voted scores vs ids w m idx =
    if fits8 aggs then OK (scan_max ids aggs w m) else Revert ArithmeticPanic.
Proof.
  induction ids as [|pid ids IH]; intros w m idx; simpl; [done|].
  destruct (tally_voters_spec (voted pid) 0 idx ltac:(lia)) as [Hfit Hpanic].
  simpl in Hfit, Hpanic. rewrite Z.add_0_l in Hfit, Hpanic.
  set (a := sumZ (take (ballots (voted pid) vs) (drop idx scores))) in *.
  destruct (a <=? 255) eqn:Ha; simpl.
  - apply Z.leb_le in Ha. destruct (Hfit Ha) as (idx' & Hdrop & ->). simpl.
    rewrite <- Hdrop. destruct (m <? a); apply IH.
  - apply Z.leb_gt in Ha. by rewrite (Hpanic ltac:(lia)).
Qed.

(** [tally] in the words of the design: the sums are [aggregates], the
    reported score is their maximum, and the winner is the first entry that
    reaches it, unless that maximum is zero, where the winner stays 0.  The
    call panics exactly when a sum leaves [uint8]. *)
Lemma tally_spec (voted : Z -> address -> bool) ids :
  let aggs := aggregates voted vs ids scores in
  tally voted ids vs scores =
    if fits8 aggs
    then OK (if 0 <? max_aggregate aggs then first_max_entry ids aggs else 0,
             max_aggregate aggs)
    else Revert ArithmeticPanic.
Proof.
  intros aggs. unfold tally.
  rewrite (tally_projects_spec voted ids 0 0 0%nat).
  change (drop 0 scores) with scores. cbv zeta. fold aggs.
  destruct (fits8 aggs); [|done].
  rewrite scan_max_spec; [done|].
  subst aggs. by rewrite aggregates_length.
Qed.

End Reduction.

Lemma max_aggregate_bound aggs : Forall (fun a => a <= max_aggregate aggs) aggs.
Proof.
  unfold max_aggregate. induction aggs as [|a aggs IH]; simpl; constructor; [lia|].
  eapply Forall_impl; [exact IH | simpl; intros; lia].
Qed.

Lemma fits8_Forall aggs : fits8 aggs = true <-> Forall (fun a => a <= 255) aggs.
Proof.
  unfold fits8. induction aggs as [|a aggs IH]; simpl.
  - split; [constructor | done].
  - rewrite andb_true_iff, IH, Z.leb_le, Forall_cons. done.
Qed.

(** Where a positive value [M] that bounds the sums is reached, the entry that
    [first_achieving] returns sits at the first position whose sum is [M]. *)
Lemma first_achieving_first M ids : forall aggs,
  length ids = length aggs ->
  M ∈ aggs ->
  exists i,
    ids !! i = Some (first_achieving M ids aggs) /\
    aggs !! i = Some M /\
    forall j a, (j < i)%nat -> aggs !! j = Some a -> a <> M.
Proof.
  induction ids as [|pid ids IH]; intros [|a aggs] Hlen Hin; simpl in *;
    try discriminate; try (by apply elem_of_nil in Hin).
  injection Hlen as Hlen.
  destruct (a =? M) eqn:HaM.
  - apply Z.eqb_eq in HaM as ->. exists 0%nat. repeat split; [|done..]. lia.
  - apply Z.eqb_neq in HaM. apply elem_of_cons in Hin as [->|Hin]; [done|].
    destruct (IH aggs Hlen Hin) as (i & Hi1 & Hi2 & Hi3).
    exists (S i). repeat split; [done..|].
    intros [|j] b Hj Hb; simpl in Hb; [congruence|]. apply (Hi3 j); [lia | done].
Qed.

Lemma max_aggregate_reached aggs : 0 < max_aggregate aggs -> max_aggregate aggs ∈ aggs.
Proof.
  unfold max_aggregate. induction aggs as [|a aggs IH]; simpl; [lia|].
  intros Hpos. destruct (Z.max_spec a (foldr Z.max 0 aggs)) as [[Hlt ->]|[Hge ->]].
  - apply elem_of_cons. right. apply IH. lia.
  - apply elem_of_cons. by left.
Qed.

(** The reduction reverts with the arithmetic panic only. *)
Lemma tally_voters_revert voted scores vs : forall ps idx e,
  tally_voters voted scores vs ps idx = Revert e -> e = ArithmeticPanic.
Proof.
  induction vs as [|v vs IH]; intros ps idx e; simpl; [discriminate|].
  destruct (voted v); [|apply IH].
  destruct (scores !! idx) as [d|]; [|apply IH].
  unfold checked_add8. destruct (ps + d <=? 255); simpl; [apply IH | congruence].
Qed.

Lemma tally_projects_revert voted scores vs ids : forall w m idx e,
  tally_projects voted scores vs ids w m idx = Revert e -> e = ArithmeticPanic.
Proof.
  induction ids as [|pid ids IH]; intros w m idx e; simpl; [discriminate|].
  destruct (tally_voters (voted pid) scores vs 0 idx) as [[a i]|e'] eqn:Hin; simpl.
  - destruct (m <? a); apply IH.
  - intros [= <-]. eapply tally_voters_revert, Hin.
Qed.

Lemma tally_revert voted ids vs scores e :
  tally voted ids vs scores = Revert e -> e = ArithmeticPanic.
Proof. apply tally_projects_revert. Qed.

(** ** Storage lemmas *)

Lemma round_update_round_eq r f s : round (update_round r f s) r = f (round s r).
Proof. unfold round, update_round. simpl. by rewrite lookup_insert_eq. Qed.

Lemma round_update_round_ne r r' f s :
  r <> r' -> round (update_round r f s) r' = round s r'.
Proof. intros Hne. unfold round, update_round. simpl. by rewrite lookup_insert_ne. Qed.

(** [_finalizeResults] writes the winner, reveals the round and moves to the
    next one; it panics when the round counter is 255. *)
Lemma finalize_spec w m s :
  let r := currentVotingRound s in
  if r <? 255
  then exists s',
         _finalizeResults w m s = OK s' /\
         currentVotingRound s' = r + 1 /\
         resultsRevealed (round s' r) = true /\
         winningProjectId (round s' r) = w /\
         maxScore (round s' r) = m /\
         votingActive (round s' r) = votingActive (round s r) /\
         endTime (round s' r) = endTime (round s r) /\
         (forall r', r' <> r -> round s' r' = round s r') /\
         votes s' = votes s /\ projects s' = projects s /\
         totalProjects s' = totalProjects s /\ admin s' = admin s /\
         authorizedVoters s' = authorizedVoters s /\
         decryptionRequests s' = decryptionRequests s /\
         events s' = events s ++ [ResultsRevealed r w m]
  else _finalizeResults w m s = Revert ArithmeticPanic.
Proof.
  intros r. unfold _finalizeResults. fold r.
  destruct (r <? 255) eqn:Hr.
  - apply Z.ltb_lt in Hr. rewrite checked_add8_fits by lia. simpl.
    eexists. split; [reflexivity|]. simpl.
    change (round (set_currentVotingRound ?x ?y)) with (round y).
    repeat split; try done.
    all: try (unfold round; simpl; fold (round s r); by rewrite lookup_insert_eq).
    intros r' Hne. unfold round. simpl. by rewrite lookup_insert_ne.
  - apply Z.ltb_ge in Hr. by rewrite checked_add8_overflow by lia.
Qed.

Lemma processResults_unfold rid scores sigs sender now s :
  processResults rid scores sigs sender now s =
    match tally (voted_in s (currentVotingRound s))
            (projectIds (round s (currentVotingRound s)))
            (voters (round s (currentVotingRound s))) scores with
    | OK w => _finalizeResults w.1 w.2 s
    | Revert e => Revert e
    end.
Proof. reflexivity. Qed.

Lemma finalize_revert w m s e : _finalizeResults w m s = Revert e -> e = ArithmeticPanic.
Proof.
  pose proof (finalize_spec w m s) as H. simpl in H.
  destruct (currentVotingRound s <? 255).
  - destruct H as (s' & -> & _). discriminate.
  - rewrite H. congruence.
Qed.

Lemma processResults_revert rid scores sigs sender now s e :
  processResults rid scores sigs sender now s = Revert e -> e = ArithmeticPanic.
Proof.
  rewrite processResults_unfold.
  destruct (tally _ _ _ _) as [w|e'] eqn:Ht.
  - apply finalize_revert.
  - intros [= <-]. eapply tally_revert, Ht.
Qed.

Lemma reachable_run txs : forall s, reachable s -> reachable (run txs s).
Proof.
  induction txs as [|t txs IH]; intros s Hs; simpl; [done|].
  apply IH. by constructor.
Qed.

(** The callback leaves every round but the current one as it was. *)
Lemma processResults_other_rounds rid scores sigs caller time s s' :
  processResults rid scores sigs caller time s = OK s' ->
  currentVotingRound s' = currentVotingRound s + 1 /\
  resultsRevealed (round s' (currentVotingRound s)) = true /\
  forall r', r' <> currentVotingRound s -> round s' r' = round s r'.
Proof.
  rewrite processResults_unfold.
  destruct (tally _ _ _ _) as [w|e]; [|discriminate].
  pose proof (finalize_spec w.1 w.2 s) as Hf. cbv zeta in Hf.
  destruct (currentVotingRound s <? 255).
  - destruct Hf as (s1 & -> & Hcur & Hrev & _ & _ & _ & _ & Hothers & _).
    intros [= <-]. done.
  - rewrite Hf. discriminate.
Qed.

(** ** The batch and the length of the plaintext list *)

Lemma collect_voters_length (voted : address -> bool) (h : address -> euint8) vs :
  forall acc,
  length (fold_left (fun cts v => if voted v then cts ++ [h v] else cts) vs acc)
    = (length acc + ballots voted vs)%nat.
Proof.
  unfold ballots. induction vs as [|v vs IH]; intros acc; simpl; [lia|].
  rewrite IH. destruct (voted v); simpl; [rewrite length_app; simpl|]; lia.
Qed.

Lemma collect_cts_length voted h ids vs :
  length (collect_cts voted h ids vs) = total_ballots voted vs ids.
Proof.
  unfold collect_cts.
  assert (forall acc,
    length (fold_left (fun cts pid =>
       fold_left (fun cts v => if voted pid v then cts ++ [h pid v] else cts) vs cts)
       ids acc) = (length acc + total_ballots voted vs ids)%nat) as Hgen.
  { induction ids as [|pid ids IH]; intros acc; simpl; [lia|].
    rewrite IH, (collect_voters_length (voted pid) (h pid)). lia. }
  rewrite Hgen. simpl. lia.
Qed.

Lemma batch_size_total voted ids vs :
  batch_size voted ids vs = total_ballots voted vs ids.
Proof. apply collect_cts_length. Qed.

Lemma sumZ_app l k : sumZ (l ++ k) = sumZ l + sumZ k.
Proof. induction l as [|x l IH]; simpl; [done | rewrite IH; lia]. Qed.

Lemma sumZ_zeros n : sumZ (replicate n 0) = 0.
Proof. induction n as [|n IH]; simpl; [done | by rewrite IH]. Qed.

(** Votes that find no plaintext count as zero. *)
Lemma aggregates_pad voted vs ids : forall scores k,
  aggregates voted vs ids (scores ++ replicate k 0) = aggregates voted vs ids scores.
Proof.
  induction ids as [|pid ids IH]; intros scores k; simpl; [done|].
  rewrite take_app, drop_app, take_replicate, drop_replicate, sumZ_app, sumZ_zeros, IH.
  by rewrite Z.add_0_r.
Qed.

(** Plaintexts past the size of the batch are never read. *)
Lemma aggregates_take voted vs ids : forall scores n,
  (total_ballots voted vs ids <= n)%nat ->
  aggregates voted vs ids (take n scores) = aggregates voted vs ids scores.
Proof.
  induction ids as [|pid ids IH]; intros scores n Hn; simpl in *; [done|].
  set (m := ballots (voted pid) vs) in *.
  rewrite take_take, Nat.min_l by lia.
  replace (drop m (take n scores)) with (take (n - m) (drop m scores)).
  - rewrite IH by lia. done.
  - rewrite take_drop_commute. do 2 f_equal. lia.
Qed.

(** ** The checks of [startVotingRound] *)

Lemma require_all_active_spec s ids :
  require_all_active s ids =
    if forallb (fun id => isActive (project s id)) ids then OK tt
    else Revert ProjectNotActive.
Proof.
  induction ids as [|id ids IH]; simpl; [done|].
  destruct (isActive (project s id)); simpl; [exact IH | done].
Qed.

(** ** What a successful call changes *)

Lemma proposeProject_OK n d c a t s s' :
  proposeProject n d c a t s = OK s' ->
  totalProjects s < 255 /\
  totalProjects s' = totalProjects s + 1 /\
  projects s' = <[totalProjects s + 1 :=
                    {| name := n; description := d; category := c; proposer := a;
                       isActive := true; proposalTime := t |}]> (projects s) /\
  events s' = events s ++ [ProjectProposed (totalProjects s + 1) n a] /\
  votes s' = votes s /\ votingRounds s' = votingRounds s /\
  currentVotingRound s' = currentVotingRound s /\ admin s' = admin s /\
  authorizedVoters s' = authorizedVoters s /\
  decryptionRequests s' = decryptionRequests s.
Proof.
  unfold proposeProject. intros H.
  apply bind_OK in H as (k & Hk & H). apply checked_add8_OK in Hk as [-> Hle].
  injection H as <-. simpl. repeat split; try done. lia.
Qed.

Lemma authorizeVoter_OK v a s s' :
  authorizeVoter v a s = OK s' ->
  a = admin s /\
  authorizedVoters s' = <[v := true]> (authorizedVoters s) /\
  events s' = events s ++ [VoterAuthorized v] /\
  totalProjects s' = totalProjects s /\ projects s' = projects s /\
  votes s' = votes s /\ votingRounds s' = votingRounds s /\
  currentVotingRound s' = currentVotingRound s /\ admin s' = admin s /\
  decryptionRequests s' = decryptionRequests s.
Proof.
  unfold authorizeVoter, onlyAdmin. intros H.
  apply bind_OK in H as ([] & Hreq & H). apply require_OK, bool_decide_eq_true in Hreq.
  injection H as <-. simpl. repeat split; done.
Qed.

Lemma revokeVoter_OK v a s s' :
  revokeVoter v a s = OK s' ->
  a = admin s /\
  authorizedVoters s' = <[v := false]> (authorizedVoters s) /\
  events s' = events s ++ [VoterRevoked v] /\
  totalProjects s' = totalProjects s /\ projects s' = projects s /\
  votes s' = votes s /\ votingRounds s' = votingRounds s /\
  currentVotingRound s' = currentVotingRound s /\ admin s' = admin s /\
  decryptionRequests s' = decryptionRequests s.
Proof.
  unfold revokeVoter, onlyAdmin. intros H.
  apply bind_OK in H as ([] & Hreq & H). apply require_OK, bool_decide_eq_true in Hreq.
  injection H as <-. simpl. repeat split; done.
Qed.

Lemma startVotingRound_OK ids a t s s' :
  startVotingRound ids a t s = OK s' ->
  a = admin s /\
  votingActive (round s (currentVotingRound s)) = false /\
  votingRounds s' =
    <[currentVotingRound s :=
        {| projectIds := ids; votingActive := true; resultsRevealed := false;
           startTime := t; endTime := 0; voters := [];
           winningProjectId := 0; maxScore := 0 |}]> (votingRounds s) /\
  events s' = events s ++ [VotingRoundStarted (currentVotingRound s) ids t] /\
  totalProjects s' = totalProjects s /\ projects s' = projects s /\
  votes s' = votes s /\ authorizedVoters s' = authorizedVoters s /\
  currentVotingRound s' = currentVotingRound s /\ admin s' = admin s /\
  decryptionRequests s' = decryptionRequests s.
Proof.
  unfold startVotingRound, onlyAdmin. intros H.
  apply bind_OK in H as ([] & Hadm & H). apply require_OK, bool_decide_eq_true in Hadm.
  apply bind_OK in H as ([] & Hact & H). apply require_OK, negb_true_iff in Hact.
  apply bind_OK in H as ([] & _ & H).
  apply bind_OK in H as ([] & _ & H).
  injection H as <-. simpl. repeat split; done.
Qed.

Lemma addVoter_frame v s :
  votes (_addVoterToRound v s) = votes s /\
  projects (_addVoterToRound v s) = projects s /\
  totalProjects (_addVoterToRound v s) = totalProjects s /\
  currentVotingRound (_addVoterToRound v s) = currentVotingRound s /\
  admin (_addVoterToRound v s) = admin s /\
  authorizedVoters (_addVoterToRound v s) = authorizedVoters s /\
  events (_addVoterToRound v s) = events s /\
  decryptionRequests (_addVoterToRound v s) = decryptionRequests s /\
  (forall r, r <> currentVotingRound s ->
     votingRounds (_addVoterToRound v s) !! r = votingRounds s !! r) /\
  let rd := round s (currentVotingRound s) in
  let rd' := round (_addVoterToRound v s) (currentVotingRound s) in
  projectIds rd' = projectIds rd /\ votingActive rd' = votingActive rd /\
  resultsRevealed rd' = resultsRevealed rd /\ startTime rd' = startTime rd /\
  endTime rd' = endTime rd /\ winningProjectId rd' = winningProjectId rd /\
  maxScore rd' = maxScore rd /\
  voters rd' = (if _isVoterInRound (voters rd) v then voters rd else voters rd ++ [v]).
Proof.
  unfold _addVoterToRound. cbv zeta.
  destruct (_isVoterInRound _ v) eqn:E.
  - repeat split; done.
  - rewrite round_update_round_eq. simpl.
    repeat split; try done.
    intros r Hr. by rewrite lookup_insert_ne.
Qed.

Lemma submitVote_OK pid score a t s s' :
  submitVote pid score a t s = OK s' ->
  authorized s a = true /\
  votingActive (round s (currentVotingRound s)) = true /\
  1 <= score <= 10 /\
  _isProjectInCurrentRound s pid = true /\
  hasVoted (vote s (currentVotingRound s) pid a) = false /\
  votes s' = <[(currentVotingRound s, pid, a) :=
                 {| encryptedScore := Enc score; hasVoted := true; timestamp := t |}]>
               (votes s) /\
  events s' = events s ++ [VoteSubmitted a (currentVotingRound s) pid] /\
  totalProjects s' = totalProjects s /\ projects s' = projects s /\
  authorizedVoters s' = authorizedVoters s /\
  currentVotingRound s' = currentVotingRound s /\ admin s' = admin s /\
  decryptionRequests s' = decryptionRequests s /\
  (forall r, r <> currentVotingRound s -> votingRounds s' !! r = votingRounds s !! r) /\
  resultsRevealed (round s' (currentVotingRound s))
    = resultsRevealed (round s (currentVotingRound s)).
Proof.
  unfold submitVote, onlyAuthorizedVoter, onlyDuringVoting. intros H.
  apply bind_OK in H as ([] & Hauth & H). apply require_OK in Hauth.
  apply bind_OK in H as ([] & Hact & H). apply require_OK in Hact.
  apply bind_OK in H as ([] & Hsc & H).
  apply require_OK, andb_true_iff in Hsc as [Hlo Hhi].
  apply Z.leb_le in Hlo, Hhi.
  apply bind_OK in H as ([] & Hin & H). apply require_OK in Hin.
  apply bind_OK in H as ([] & Hnv & H). apply require_OK, negb_true_iff in Hnv.
  injection H as <-.
  set (s1 := set_votes _ s).
  destruct (addVoter_frame a s1) as (Hv & Hp & Htp & Hc & Hadm & Hau & Hev & Hdr & Hothers & Hrd).
  cbv zeta in Hrd. destruct Hrd as (_ & _ & Hrev & _).
  simpl. rewrite Hv, Hp, Htp, Hc, Hadm, Hau, Hev, Hdr.
  repeat split; try done.
Qed.

Lemma proposed_ids_app evs evs' :
  proposed_ids (evs ++ evs') = proposed_ids evs ++ proposed_ids evs'.
Proof. apply omap_app. Qed.

Lemma finalize_OK w m s s' :
  _finalizeResults w m s = OK s' ->
  let r := currentVotingRound s in
  r < 255 /\ currentVotingRound s' = r + 1 /\
  resultsRevealed (round s' r) = true /\
  winningProjectId (round s' r) = w /\ maxScore (round s' r) = m /\
  votingActive (round s' r) = votingActive (round s r) /\
  endTime (round s' r) = endTime (round s r) /\
  (forall r', r' <> r -> round s' r' = round s r') /\
  votes s' = votes s /\ projects s' = projects s /\
  totalProjects s' = totalProjects s /\ admin s' = admin s /\
  authorizedVoters s' = authorizedVoters s /\
  decryptionRequests s' = decryptionRequests s /\
  events s' = events s ++ [ResultsRevealed r w m].
Proof.
  intros H r. pose proof (finalize_spec w m s) as Hf. cbv zeta in Hf. fold r in Hf.
  destruct (r <? 255) eqn:Hr.
  - apply Z.ltb_lt in Hr. destruct Hf as (s1 & Hs1 & Hrest).
    rewrite Hs1 in H. assert (s1 = s') as <- by congruence.
    split; [done | exact Hrest].
  - rewrite Hf in H. discriminate.
Qed.

Lemma processResults_OK rid scores sigs a t s s' :
  processResults rid scores sigs a t s = OK s' ->
  exists w,
    tally (voted_in s (currentVotingRound s))
      (projectIds (round s (currentVotingRound s)))
      (voters (round s (currentVotingRound s))) scores = OK w /\
    _finalizeResults w.1 w.2 s = OK s'.
Proof.
  rewrite processResults_unfold.
  destruct (tally _ _ _ _) as [w|e]; [|discriminate]. intros H. by exists w.
Qed.

Lemma count_voters_total (voted : address -> bool) vs : forall acc,
  fold_left (fun total v => if voted v then total + 1 else total) vs acc
    = acc + Z.of_nat (ballots voted vs).
Proof.
  unfold ballots. induction vs as [|v vs IH]; intros acc; simpl; [lia|].
  rewrite IH. destruct (voted v); simpl; lia.
Qed.

(** The count [totalVotes] is the size of the batch. *)
Lemma count_votes_total voted ids vs :
  count_votes voted ids vs = Z.of_nat (total_ballots voted vs ids).
Proof.
  unfold count_votes.
  assert (forall acc,
    fold_left (fun total pid =>
       fold_left (fun total v => if voted pid v then total + 1 else total) vs total)
       ids acc = acc + Z.of_nat (total_ballots voted vs ids)) as Hgen.
  { induction ids as [|pid ids IH]; intros acc; simpl; [lia|].
    rewrite IH, (count_voters_total (voted pid)). lia. }
  rewrite Hgen. lia.
Qed.

Lemma endVotingRound_OK a t s s' :
  endVotingRound a t s = OK s' ->
  let r := currentVotingRound s in
  a = admin s /\
  votingActive (round s r) = true /\
  resultsRevealed (round s r) = false /\
  votes s' = votes s /\ projects s' = projects s /\
  totalProjects s' = totalProjects s /\ admin s' = admin s /\
  authorizedVoters s' = authorizedVoters s /\
  proposed_ids (events s') = proposed_ids (events s) /\
  (forall r', r' <> r -> round s' r' = round s r') /\
  votingActive (round s' r) = false /\
  endTime (round s' r) = t /\
  ((currentVotingRound s' = r /\ resultsRevealed (round s' r) = false /\
    exists cts, cts <> [] /\ decryptionRequests s' = decryptionRequests s ++ [cts]) \/
   (currentVotingRound s' = r + 1 /\ r < 255 /\
    resultsRevealed (round s' r) = true /\
    winningProjectId (round s' r) = 0 /\ maxScore (round s' r) = 0 /\
    decryptionRequests s' = decryptionRequests s)).
Proof.
  intros H r. unfold endVotingRound, onlyAdmin in H. fold r in H.
  apply bind_OK in H as ([] & Hadm & H). apply require_OK, bool_decide_eq_true in Hadm.
  apply bind_OK in H as ([] & Hact & H). apply require_OK in Hact.
  apply bind_OK in H as ([] & Hrev & H). apply require_OK, negb_true_iff in Hrev.
  set (s1 := update_round r _ s) in H.
  assert (currentVotingRound s1 = r) as Hc1 by done.
  unfold _requestResultsDecryption in H. rewrite Hc1 in H.
  assert (round s1 r = {| projectIds := projectIds (round s r); votingActive := false;
            resultsRevealed := resultsRevealed (round s r);
            startTime := startTime (round s r); endTime := t;
            voters := voters (round s r);
            winningProjectId := winningProjectId (round s r);
            maxScore := maxScore (round s r) |}) as Hr1
    by (subst s1; by rewrite round_update_round_eq).
  assert (forall r', r' <> r -> round s1 r' = round s r') as Ho1
    by (intros r' Hne; subst s1; by rewrite round_update_round_ne).
  destruct (0 <? count_votes _ _ _) eqn:Hcount.
  - injection H as <-.
    change (round (requestDecryption ?c s1)) with (round s1). simpl.
    rewrite Hr1. simpl. repeat split; try done.
    left. repeat split; try done. eexists. split; [|reflexivity].
    intros Hnil. apply (f_equal length) in Hnil.
    rewrite collect_cts_length in Hnil. simpl in Hnil.
    apply Z.ltb_lt in Hcount. rewrite count_votes_total, Hr1 in Hcount.
    simpl in Hcount. lia.
  - apply finalize_OK in H. cbv zeta in H. rewrite Hc1 in H.
    destruct H as (Hlt & Hcur & Hrev' & Hw & Hm & Hva & Het & Hoth & Hv & Hp & Htp & Ha & Hau & Hdr & Hev).
    rewrite Hr1 in Hva, Het. simpl in Hva, Het.
    rewrite Hv, Hp, Htp, Ha, Hau, Hev, proposed_ids_app. simpl.
    rewrite app_nil_r. repeat split; try done.
    + intros r' Hne. rewrite Hoth by done. by apply Ho1.
    + right. repeat split; try done.
Qed.

(** Case analysis on a successful call: one goal per function of the
    contract, with the facts of the lemmas above in the context. *)
Ltac exec_cases H :=
  unfold exec in H;
  match type of H with context [call ?t] => destruct (call t) end;
  [ apply proposeProject_OK in H
  | apply authorizeVoter_OK in H
  | apply revokeVoter_OK in H
  | apply startVotingRound_OK in H
  | apply submitVote_OK in H
  | apply endVotingRound_OK in H; cbv zeta in H
  | let w := fresh "w" in
    apply processResults_OK in H as (w & _ & H);
    apply finalize_OK in H; cbv zeta in H ];
  destruct_and?.

(** ** One vote per round, entry and voter *)

(** No call touches a vote that has been cast. *)
Lemma exec_keeps_vote t s s' r pid v :
  exec t s = OK s' ->
  hasVoted (vote s r pid v) = true ->
  votes s' !! (r, pid, v) = votes s !! (r, pid, v).
Proof.
  intros H Hv. exec_cases H; try congruence.
  match goal with Hw : votes s' = _ |- _ => rewrite Hw end.
  apply lookup_insert_ne. intros [= <- <- <-]. congruence.
Qed.

Lemma run_keeps_vote txs : forall s r pid v,
  hasVoted (vote s r pid v) = true ->
  votes (run txs s) !! (r, pid, v) = votes s !! (r, pid, v).
Proof.
  induction txs as [|t txs IH]; intros s r pid v Hv; simpl; [done|].
  assert (votes (apply_tx s t) !! (r, pid, v) = votes s !! (r, pid, v)) as Hstep.
  { unfold apply_tx. destruct (exec t s) as [s'|e] eqn:E; [|done].
    by apply (exec_keeps_vote t s s'). }
  rewrite IH; [done|]. unfold vote. by rewrite Hstep.
Qed.

(** A second vote for the same entry in the same round is refused. *)
Lemma submitVote_again s pid score a t :
  hasVoted (vote s (currentVotingRound s) pid a) = true ->
  exists e,
    submitVote pid score a t s = Revert e /\
    (authorized s a = true ->
     votingActive (round s (currentVotingRound s)) = true ->
     1 <= score <= 10 ->
     _isProjectInCurrentRound s pid = true ->
     e = AlreadyVoted).
Proof.
  intros Hv. unfold submitVote, onlyAuthorizedVoter, onlyDuringVoting. rewrite Hv.
  destruct (authorized s a); simpl; [|eexists; split; [done | discriminate]].
  destruct (votingActive _); simpl; [|eexists; split; [done | discriminate]].
  destruct ((1 <=? score) && (score <=? 10)) eqn:Hsc; simpl.
  - destruct (_isProjectInCurrentRound s pid); simpl;
      eexists; (split; [done|]); [done | discriminate].
  - eexists. split; [done|]. intros _ _ Hr _.
    apply andb_false_iff in Hsc as [Hsc|Hsc]; apply Z.leb_gt in Hsc; lia.
Qed.

(** ** The invariants hold in every reachable storage *)

Lemma Inv_constructor d : Inv (constructor d).
Proof.
  split; simpl; try done; lia.
Qed.

Lemma round_ext s s' r :
  votingRounds s' !! r = votingRounds s !! r -> round s' r = round s r.
Proof. unfold round. by intros ->. Qed.

Lemma Inv_finalize w m s s' :
  Inv s -> _finalizeResults w m s = OK s' -> Inv s'.
Proof.
  intros [Ht Hr Ha Hf Hi Hfu Hu] H. apply finalize_OK in H. cbv zeta in H.
  destruct H as (Hlt & Hcur & _ & _ & _ & _ & _ & Hoth & _ & Hp & Htp & _ & _ & _ & Hev).
  split.
  - by rewrite Htp.
  - rewrite Hcur. lia.
  - intros id Hid. unfold project. rewrite Hp. apply Ha. by rewrite Htp in Hid.
  - intros id Hid. rewrite Hp. apply Hf. by rewrite Htp in Hid.
  - rewrite Hev, proposed_ids_app, Htp, Hi. simpl. by rewrite app_nil_r.
  - intros r Hlt'. rewrite Hcur in Hlt'. rewrite Hoth by lia. apply Hfu. lia.
  - rewrite Hcur. rewrite Hoth by lia. rewrite Hfu by lia. done.
Qed.

Lemma Inv_exec t s s' : Inv s -> exec t s = OK s' -> Inv s'.
Proof.
  intros HI H. pose proof HI as [Ht Hr Ha Hf Hi Hfu Hu].
  unfold exec in H. destruct (call t).
  - apply proposeProject_OK in H
      as (Hlt & Htp & Hp & Hev & _ & Hvr & Hcur & _).
    split.
    + lia.
    + by rewrite Hcur.
    + intros id Hid. unfold project. rewrite Hp.
      destruct (decide (id = totalProjects s + 1)) as [->|Hne].
      * by rewrite lookup_insert_eq.
      * rewrite lookup_insert_ne by done. apply Ha. lia.
    + intros id Hid. rewrite Hp, lookup_insert_ne by lia. apply Hf. lia.
    + rewrite Hev, proposed_ids_app, Hi, Htp. simpl.
      replace (Z.to_nat (totalProjects s + 1)) with (S (Z.to_nat (totalProjects s))) by lia.
      rewrite seq_S, fmap_app. simpl. do 2 f_equal. lia.
    + intros r Hlt'. rewrite (round_ext s s') by (by rewrite Hvr). apply Hfu. lia.
    + rewrite Hcur. by rewrite (round_ext s s') by (by rewrite Hvr).
  - apply authorizeVoter_OK in H as (_ & _ & Hev & Htp & Hp & _ & Hvr & Hcur & _).
    split; rewrite ?Htp, ?Hcur, ?Hp; try done.
    + unfold project. by rewrite Hp.
    + rewrite Hev, proposed_ids_app. simpl. by rewrite app_nil_r.
    + intros r Hlt'. rewrite (round_ext s s') by (by rewrite Hvr). by apply Hfu.
    + by rewrite (round_ext s s') by (by rewrite Hvr).
  - apply revokeVoter_OK in H as (_ & _ & Hev & Htp & Hp & _ & Hvr & Hcur & _).
    split; rewrite ?Htp, ?Hcur, ?Hp; try done.
    + unfold project. by rewrite Hp.
    + rewrite Hev, proposed_ids_app. simpl. by rewrite app_nil_r.
    + intros r Hlt'. rewrite (round_ext s s') by (by rewrite Hvr). by apply Hfu.
    + by rewrite (round_ext s s') by (by rewrite Hvr).
  - apply startVotingRound_OK in H as (_ & _ & Hvr & Hev & Htp & Hp & _ & _ & Hcur & _).
    split; rewrite ?Htp, ?Hcur, ?Hp; try done.
    + unfold project. by rewrite Hp.
    + rewrite Hev, proposed_ids_app. simpl. by rewrite app_nil_r.
    + intros r Hlt'. unfold round at 1. rewrite Hvr, lookup_insert_ne by lia.
      by apply Hfu.
    + unfold round. by rewrite Hvr, lookup_insert_eq.
  - apply submitVote_OK in H
      as (_ & _ & _ & _ & _ & _ & Hev & Htp & Hp & _ & Hcur & _ & _ & Hoth & Hrev).
    split; rewrite ?Htp, ?Hcur, ?Hp; try done.
    + unfold project. by rewrite Hp.
    + rewrite Hev, proposed_ids_app. simpl. by rewrite app_nil_r.
    + intros r Hlt'. rewrite (round_ext s s') by (apply Hoth; lia). by apply Hfu.
    + by rewrite Hrev.
  - apply endVotingRound_OK in H. cbv zeta in H.
    destruct H as (_ & _ & _ & _ & Hp & Htp & _ & _ & Hev & Hoth & _ & _ & Hcase).
    destruct Hcase as [(Hcur & Hrev & _)|(Hcur & Hlt & _)].
    + split; rewrite ?Htp, ?Hcur, ?Hp; try done.
      * unfold project. by rewrite Hp.
      * by rewrite Hev.
      * intros r Hlt'. rewrite Hoth by lia. by apply Hfu.
    + split; rewrite ?Htp, ?Hcur, ?Hp; try done.
      * lia.
      * unfold project. by rewrite Hp.
      * by rewrite Hev.
      * intros r Hlt'. rewrite Hoth by lia. apply Hfu. lia.
      * rewrite Hoth by lia. rewrite Hfu by lia. done.
  - apply processResults_OK in H as (w & _ & H). by apply (Inv_finalize w.1 w.2 s).
Qed.

Lemma Inv_reachable s : reachable s -> Inv s.
Proof.
  induction 1 as [d|s t _ IH]; [apply Inv_constructor|].
  unfold apply_tx. destruct (exec t s) as [s'|e] eqn:E; [|done].
  by apply (Inv_exec t s).
Qed.

(** In a reachable storage the active entries are the registered ones. *)
Lemma reachable_active_registered s id :
  reachable s -> isActive (project s id) = true <-> 1 <= id <= totalProjects s.
Proof.
  intros Hreach. pose proof (Inv_reachable s Hreach) as [_ _ Ha Hf _ _ _].
  split; [|apply Ha]. intros Hact.
  destruct (decide (1 <= id <= totalProjects s)) as [|Hout]; [done|].
  unfold project in Hact. rewrite (Hf id Hout) in Hact. discriminate.
Qed.

Lemma total_ballots_no_voters voted ids : total_ballots voted [] ids = 0%nat.
Proof. induction ids as [|pid ids IH]; simpl; [done | by rewrite IH]. Qed.

(** ** Entry ids *)

Lemma exec_total_mono t s s' :
  exec t s = OK s' -> totalProjects s <= totalProjects s'.
Proof. intros H. exec_cases H; lia. Qed.

(** A registered entry is never written again. *)
Lemma exec_keeps_project t s s' id :
  exec t s = OK s' -> 1 <= id <= totalProjects s ->
  projects s' !! id = projects s !! id.
Proof.
  intros H Hid. exec_cases H; try congruence.
  match goal with Hw : projects s' = _ |- _ => rewrite Hw end.
  apply lookup_insert_ne. lia.
Qed.

Lemma run_keeps_project txs : forall s id,
  1 <= id <= totalProjects s ->
  projects (run txs s) !! id = projects s !! id.
Proof.
  induction txs as [|t txs IH]; intros s id Hid; simpl; [done|].
  unfold apply_tx. destruct (exec t s) as [s'|e] eqn:E; [|by apply IH].
  rewrite IH.
  - by apply (exec_keeps_project t s s').
  - apply exec_total_mono in E. lia.
Qed.

Lemma seq_Z_sorted len : forall start,
  StronglySorted Z.lt (Z.of_nat <$> seq start len).
Proof.
  induction len as [|len IH]; intros start; simpl; constructor; [apply IH|].
  apply Forall_fmap, Forall_seq. intros j Hj. simpl. lia.
Qed.

(** ** Deactivating an entry *)

(** No call of the contract clears the active flag of an entry. *)
Lemma exec_keeps_active t s s' id :
  exec t s = OK s' ->
  isActive (project s id) = true -> isActive (project s' id) = true.
Proof.
  unfold project. intros H Hid. exec_cases H; try congruence.
  match goal with Hw : projects s' = _ |- _ => rewrite Hw end.
  destruct (decide (id = totalProjects s + 1)) as [->|Hne].
  - by rewrite lookup_insert_eq.
  - by rewrite lookup_insert_ne.
Qed.

(** Nor does a call that reverts, or a run of calls. *)
Lemma apply_tx_keeps_active s t id :
  isActive (project s id) = true -> isActive (project (apply_tx s t) id) = true.
Proof.
  intros Hid. unfold apply_tx. destruct (exec t s) as [s'|e] eqn:E; [|done].
  by apply (exec_keeps_active t s s').
Qed.

Lemma run_keeps_active txs : forall s id,
  isActive (project s id) = true -> isActive (project (run txs s) id) = true.
Proof.
  induction txs as [|t txs IH]; intros s id Hid; simpl; [done|].
  by apply IH, apply_tx_keeps_active.
Qed.

(** ** Membership loops *)

Lemma isProjectInRound_elem ids pid : _isProjectInRound ids pid = true <-> pid ∈ ids.
Proof.
  induction ids as [|id ids IH]; simpl.
  - split; [discriminate | by intros ?%elem_of_nil].
  - rewrite elem_of_cons. destruct (id =? pid) eqn:E.
    + apply Z.eqb_eq in E. split; [by left | done].
    + apply Z.eqb_neq in E. rewrite IH. split; [by right | intros [->|]; done].
Qed.

Lemma isVoterInRound_elem vs (a : address) : _isVoterInRound vs a = true <-> a ∈ vs.
Proof.
  induction vs as [|v vs IH]; simpl.
  - split; [discriminate | by intros ?%elem_of_nil].
  - rewrite elem_of_cons. destruct (v =? a)%N eqn:E.
    + apply N.eqb_eq in E. split; [by left | done].
    + apply N.eqb_neq in E. rewrite IH. split; [by right | intros [->|]; done].
Qed.

(** ** The round record after a successful call *)

Lemma finalize_round w m s s' :
  _finalizeResults w m s = OK s' ->
  round s' (currentVotingRound s) =
    {| projectIds := projectIds (round s (currentVotingRound s));
       votingActive := votingActive (round s (currentVotingRound s));
       resultsRevealed := true;
       startTime := startTime (round s (currentVotingRound s));
       endTime := endTime (round s (currentVotingRound s));
       voters := voters (round s (currentVotingRound s));
       winningProjectId := w; maxScore := m |}.
Proof.
  unfold _finalizeResults. intros H.
  apply bind_OK in H as (k & _ & H). injection H as <-.
  change (round (set_currentVotingRound ?x ?y)) with (round y).
  change (round (emit ?x ?y)) with (round y).
  by rewrite round_update_round_eq.
Qed.

Lemma submitVote_round pid score a t s s' :
  submitVote pid score a t s = OK s' ->
  let rd := round s (currentVotingRound s) in
  round s' (currentVotingRound s) =
    {| projectIds := projectIds rd; votingActive := votingActive rd;
       resultsRevealed := resultsRevealed rd; startTime := startTime rd;
       endTime := endTime rd;
       voters := if _isVoterInRound (voters rd) a then voters rd else voters rd ++ [a];
       winningProjectId := winningProjectId rd; maxScore := maxScore rd |}.
Proof.
  intros H rd. unfold submitVote in H.
  do 5 (apply bind_OK in H as ([] & _ & H)).
  injection H as <-.
  change (round (emit ?x ?y)) with (round y).
  set (s1 := set_votes _ s).
  change (currentVotingRound s) with (currentVotingRound s1).
  destruct (addVoter_frame a s1) as (_ & _ & _ & _ & _ & _ & _ & _ & _ & Hrd).
  cbv zeta in Hrd. change (round s1) with (round s) in Hrd.
  change (currentVotingRound s1) with (currentVotingRound s) in *. fold rd in Hrd.
  destruct Hrd as (H1 & H2 & H3 & H4 & H5 & H6 & H7 & H8).
  destruct (round (_addVoterToRound a s1) (currentVotingRound s)).
  simpl in *. by subst.
Qed.

Lemma endVotingRound_round a t s s' :
  endVotingRound a t s = OK s' ->
  let rd := round s (currentVotingRound s) in
  (currentVotingRound s' = currentVotingRound s /\
   0 < count_votes (voted_in s (currentVotingRound s)) (projectIds rd) (voters rd) /\
   round s' (currentVotingRound s) =
     {| projectIds := projectIds rd; votingActive := false;
        resultsRevealed := resultsRevealed rd; startTime := startTime rd;
        endTime := t; voters := voters rd;
        winningProjectId := winningProjectId rd; maxScore := maxScore rd |} /\
   events s' = events s /\
   decryptionRequests s' = decryptionRequests s ++
     [collect_cts (voted_in s (currentVotingRound s))
        (fun pid v => encryptedScore (vote s (currentVotingRound s) pid v))
        (projectIds rd) (voters rd)]) \/
  (currentVotingRound s' = currentVotingRound s + 1 /\
   count_votes (voted_in s (currentVotingRound s)) (projectIds rd) (voters rd) = 0 /\
   round s' (currentVotingRound s) =
     {| projectIds := projectIds rd; votingActive := false;
        resultsRevealed := true; startTime := startTime rd;
        endTime := t; voters := voters rd;
        winningProjectId := 0; maxScore := 0 |} /\
   events s' = events s ++ [ResultsRevealed (currentVotingRound s) 0 0] /\
   decryptionRequests s' = decryptionRequests s).
Proof.
  intros H rd. unfold endVotingRound in H.
  do 3 (apply bind_OK in H as ([] & _ & H)).
  set (s1 := update_round (currentVotingRound s) _ s) in H.
  assert (round s1 (currentVotingRound s) =
    {| projectIds := projectIds rd; votingActive := false;
       resultsRevealed := resultsRevealed rd; startTime := startTime rd;
       endTime := t; voters := voters rd;
       winningProjectId := winningProjectId rd; maxScore := maxScore rd |}) as Hr1
    by (subst s1; by rewrite round_update_round_eq).
  unfold _requestResultsDecryption in H.
  change (currentVotingRound s1) with (currentVotingRound s) in H.
  rewrite Hr1 in H. simpl in H.
  change (fun pid v => hasVoted (vote s1 (currentVotingRound s) pid v))
    with (voted_in s (currentVotingRound s)) in H.
  destruct (0 <? count_votes _ _ _) eqn:Hc.
  - left. apply Z.ltb_lt in Hc. injection H as <-.
    change (round (requestDecryption ?c s1)) with (round s1).
    repeat split; done.
  - right. apply Z.ltb_ge in Hc.
    pose proof (finalize_round _ _ _ _ H) as Hfr.
    apply finalize_OK in H. cbv zeta in H.
    change (currentVotingRound s1) with (currentVotingRound s) in *.
    destruct H as (_ & Hcur & _ & _ & _ & _ & _ & _ & _ & _ & _ & _ & _ & Hdr & Hev).
    rewrite Hr1 in Hfr. simpl in Hfr.
    split; [done|]. split.
    { rewrite count_votes_total in *. lia. }
    repeat split; done.
Qed.

Lemma startVotingRound_active ids a t s s' :
  startVotingRound ids a t s = OK s' ->
  ids <> [] /\ forall id, id ∈ ids -> isActive (project s id) = true.
Proof.
  unfold startVotingRound. intros H.
  do 2 (apply bind_OK in H as ([] & _ & H)).
  apply bind_OK in H as ([] & Hlen & H). apply require_OK, Z.ltb_lt in Hlen.
  apply bind_OK in H as ([] & Hall & _).
  rewrite require_all_active_spec in Hall.
  split; [by destruct ids|].
  destruct (forallb _ ids) eqn:E; [|discriminate].
  rewrite forallb_forall in E. intros id Hin. apply E. by apply list_elem_of_In.
Qed.

Lemma Inv_active_registered s id :
  Inv s -> isActive (project s id) = true -> 1 <= id <= totalProjects s.
Proof.
  intros [_ _ _ Hf _ _ _] Hact.
  destruct (decide (1 <= id <= totalProjects s)) as [|Hout]; [done|].
  unfold project in Hact. rewrite (Hf id Hout) in Hact. discriminate.
Qed.

(** ** The winner that the reduction returns *)

Lemma tally_voters_bound voted scores vs : forall ps idx ps' idx',
  tally_voters voted scores vs ps idx = OK (ps', idx') -> ps <= 255 -> ps' <= 255.
Proof.
  induction vs as [|v vs IH]; intros ps idx ps' idx'; simpl.
  - intros [= <- <-]. done.
  - destruct (voted v); [|apply IH].
    destruct (scores !! idx) as [d|]; [|apply IH].
    intros H Hps. apply bind_OK in H as (k & Hk & H).
    apply checked_add8_OK in Hk as [-> Hle]. by apply (IH _ _ _ _ H).
Qed.

Lemma tally_projects_winner voted scores vs (all ids : list Z) : forall w m idx w' m',
  tally_projects voted scores vs ids w m idx = OK (w', m') ->
  (forall id, id ∈ ids -> id ∈ all) ->
  (w = 0 /\ m = 0) \/ (w ∈ all /\ 0 < m <= 255) ->
  (w' = 0 /\ m' = 0) \/ (w' ∈ all /\ 0 < m' <= 255).
Proof.
  induction ids as [|pid ids IH]; intros w m idx w' m'; simpl.
  - intros [= <- <-]. done.
  - intros H Hsub HP. apply bind_OK in H as ([a i] & Ha & H). simpl in H.
    assert (forall id, id ∈ ids -> id ∈ all) as Hsub'
      by (intros id Hin; apply Hsub, elem_of_cons; by right).
    apply tally_voters_bound in Ha; [|lia].
    destruct (m <? a) eqn:Hma.
    + apply Z.ltb_lt in Hma. apply (IH _ _ _ _ _ H Hsub'). right.
      split; [apply Hsub, elem_of_cons; by left|]. destruct HP as [[_ ->]|[_ ?]]; lia.
    + by apply (IH _ _ _ _ _ H Hsub').
Qed.

Lemma tally_winner voted ids vs scores w m :
  tally voted ids vs scores = OK (w, m) ->
  (w = 0 /\ m = 0) \/ (w ∈ ids /\ 0 < m <= 255).
Proof.
  unfold tally. intros H.
  apply (tally_projects_winner voted scores vs ids ids 0 0 0%nat w m H); [done|].
  by left.
Qed.

(** ** The ledger holds in every reachable storage *)

Lemma Ledger_constructor d : Ledger (constructor d).
Proof.
  split; simpl; try done.
  - intros r. apply NoDup_nil_2.
  - intros r v Hin. by apply elem_of_nil in Hin.
  - intros r pid Hin. by apply elem_of_nil in Hin.
  - intros r Hr. lia.
  - intros r. by left.
Qed.

(** Calls that touch neither the votes nor the rounds. *)
Lemma Ledger_frame s s' :
  Ledger s ->
  votes s' = votes s ->
  votingRounds s' = votingRounds s ->
  currentVotingRound s' = currentVotingRound s ->
  totalProjects s <= totalProjects s' ->
  List.filter is_VoteSubmitted (events s') = List.filter is_VoteSubmitted (events s) ->
  revealed_rounds (events s') = revealed_rounds (events s) ->
  Ledger s'.
Proof.
  intros [Hv Hnd Hvo Hen Hre Hbe Hpe Hwi Hve Hro] Hvotes Hvr Hcur Htp Hev1 Hev2.
  assert (forall r, round s' r = round s r) as Hround
    by (intros r; unfold round; by rewrite Hvr).
  split; intros; rewrite ?Hround, ?Hcur, ?Hvotes, ?Hev1, ?Hev2 in *; try done.
  - destruct (Hv r pid v x) as (? & ? & ? & ?); [done|]. repeat split; try done; lia.
  - unfold vote. rewrite Hvotes. by apply Hvo.
  - destruct (Hen r pid) as [? ?]; [done|]. lia.
  - by apply Hre.
  - by apply Hbe.
  - by apply Hpe.
Qed.

(** A call that changes only the activity and the times of the current
    round. *)
Lemma Ledger_touch s s' :
  Ledger s ->
  votes s' = votes s ->
  currentVotingRound s' = currentVotingRound s ->
  totalProjects s' = totalProjects s ->
  (forall r, r <> currentVotingRound s -> round s' r = round s r) ->
  1 <= currentVotingRound s ->
  projectIds (round s' (currentVotingRound s)) = projectIds (round s (currentVotingRound s)) ->
  voters (round s' (currentVotingRound s)) = voters (round s (currentVotingRound s)) ->
  winningProjectId (round s' (currentVotingRound s))
    = winningProjectId (round s (currentVotingRound s)) ->
  maxScore (round s' (currentVotingRound s)) = maxScore (round s (currentVotingRound s)) ->
  events s' = events s ->
  Ledger s'.
Proof.
  intros [Hv Hnd Hvo Hen Hre Hbe Hpe Hwi Hve Hro] Hvotes Hcur Htp Hoth Hc1 Hids Hvs Hw Hm Hev.
  set (c := currentVotingRound s) in *.
  assert (forall r, projectIds (round s' r) = projectIds (round s r)) as Hids'
    by (intros r; destruct (decide (r = c)) as [->|]; [done | by rewrite Hoth]).
  assert (forall r, voters (round s' r) = voters (round s r)) as Hvs'
    by (intros r; destruct (decide (r = c)) as [->|]; [done | by rewrite Hoth]).
  assert (forall r, winningProjectId (round s' r) = winningProjectId (round s r)) as Hw'
    by (intros r; destruct (decide (r = c)) as [->|]; [done | by rewrite Hoth]).
  assert (forall r, maxScore (round s' r) = maxScore (round s r)) as Hm'
    by (intros r; destruct (decide (r = c)) as [->|]; [done | by rewrite Hoth]).
  split; intros; rewrite ?Hids', ?Hvs', ?Hw', ?Hm', ?Hcur, ?Hvotes, ?Htp, ?Hev in *;
    try done.
  - by apply (Hv r pid v x).
  - unfold vote. rewrite Hvotes. by apply Hvo.
  - by apply (Hen r).
  - rewrite Hoth by (fold c; lia). by apply Hre.
  - rewrite Hoth by lia. by apply Hbe.
  - by apply Hpe.
Qed.

(** A call that reveals the current round with winner [w] and score [m]. *)
Lemma Ledger_reveal s s' w m :
  Inv s -> Ledger s ->
  currentVotingRound s' = currentVotingRound s + 1 ->
  votes s' = votes s ->
  totalProjects s' = totalProjects s ->
  (forall r, r <> currentVotingRound s -> round s' r = round s r) ->
  projectIds (round s' (currentVotingRound s)) = projectIds (round s (currentVotingRound s)) ->
  voters (round s' (currentVotingRound s)) = voters (round s (currentVotingRound s)) ->
  resultsRevealed (round s' (currentVotingRound s)) = true ->
  winningProjectId (round s' (currentVotingRound s)) = w ->
  maxScore (round s' (currentVotingRound s)) = m ->
  (w = 0 /\ m = 0) \/
    (w ∈ projectIds (round s (currentVotingRound s)) /\ 0 < m <= 255) ->
  events s' = events s ++ [ResultsRevealed (currentVotingRound s) w m] ->
  Ledger s'.
Proof.
  intros [_ Hr _ _ _ _ _] [Hv Hnd Hvo Hen Hre Hbe Hpe Hwi Hve Hro]
    Hcur Hvotes Htp Hoth Hids Hvs Hrev Hw Hm HP Hev.
  set (c := currentVotingRound s) in *.
  assert (forall r, projectIds (round s' r) = projectIds (round s r)) as Hids'
    by (intros r; destruct (decide (r = c)) as [->|]; [done | by rewrite Hoth]).
  assert (forall r, voters (round s' r) = voters (round s r)) as Hvs'
    by (intros r; destruct (decide (r = c)) as [->|]; [done | by rewrite Hoth]).
  split.
  - intros r pid v x Hx. rewrite Hvotes in Hx.
    destruct (Hv r pid v x Hx) as (? & ? & ? & ?). rewrite Hcur, Htp.
    repeat split; try done; lia.
  - intros r. rewrite Hvs'. apply Hnd.
  - intros r v. rewrite Hvs', Hids'. unfold vote. rewrite Hvotes. apply Hvo.
  - intros r pid. rewrite Hids', Htp. apply Hen.
  - intros r Hlt. rewrite Hcur in Hlt. destruct (decide (r = c)) as [->|Hne]; [done|].
    rewrite Hoth by done. apply Hre. lia.
  - intros r Hlt. rewrite Hoth by lia. by apply Hbe.
  - intros r Hge. rewrite Hcur in Hge. rewrite Hoth by lia. apply Hpe. lia.
  - intros r. destruct (decide (r = c)) as [->|Hne].
    + rewrite Hw, Hm, Hids. exact HP.
    + rewrite Hoth by done. apply Hwi.
  - rewrite Hvotes, Hev, List.filter_app. simpl. by rewrite app_nil_r.
  - rewrite Hev, Hcur. unfold revealed_rounds. rewrite omap_app. fold (revealed_rounds (events s)).
    rewrite Hro. simpl.
    replace (Z.to_nat (c + 1 - 1)) with (S (Z.to_nat (c - 1))) by lia.
    rewrite seq_S, fmap_app. simpl. do 2 f_equal. lia.
Qed.

Lemma Ledger_finalize w m s s' :
  Inv s -> Ledger s ->
  _finalizeResults w m s = OK s' ->
  (w = 0 /\ m = 0) \/
    (w ∈ projectIds (round s (currentVotingRound s)) /\ 0 < m <= 255) ->
  Ledger s'.
Proof.
  intros HI HL H HP. pose proof (finalize_round _ _ _ _ H) as Hrd.
  apply finalize_OK in H. cbv zeta in H. destruct_and?.
  apply (Ledger_reveal s s' w m); try done; by rewrite Hrd.
Qed.

Lemma Ledger_start ids a t s s' :
  Inv s -> Ledger s -> startVotingRound ids a t s = OK s' -> Ledger s'.
Proof.
  intros HI [Hv Hnd Hvo Hen Hre Hbe Hpe Hwi Hve Hro] H.
  pose proof (inv_round s HI) as Hc1.
  destruct (startVotingRound_active _ _ _ _ _ H) as [_ Hact].
  apply startVotingRound_OK in H
    as (_ & _ & Hvr & Hev & Htp & _ & Hvotes & _ & Hcur & _).
  set (c := currentVotingRound s) in *.
  assert (round s' c = {| projectIds := ids; votingActive := true; resultsRevealed := false;
            startTime := t; endTime := 0; voters := [];
            winningProjectId := 0; maxScore := 0 |}) as Hnew
    by (unfold round; by rewrite Hvr, lookup_insert_eq).
  assert (forall r, r <> c -> round s' r = round s r) as Hoth
    by (intros r Hne; unfold round; by rewrite Hvr, lookup_insert_ne).
  split.
  - intros r pid v x. rewrite Hvotes, Hcur, Htp. apply Hv.
  - intros r. destruct (decide (r = c)) as [->|Hne].
    + rewrite Hnew. apply NoDup_nil_2.
    + rewrite Hoth by done. apply Hnd.
  - intros r v. destruct (decide (r = c)) as [->|Hne].
    + rewrite Hnew. simpl. by intros ?%elem_of_nil.
    + rewrite Hoth by done. unfold vote. rewrite Hvotes. apply Hvo.
  - intros r pid. rewrite Htp. destruct (decide (r = c)) as [->|Hne].
    + rewrite Hnew. simpl. intros Hin. by apply Inv_active_registered, Hact.
    + rewrite Hoth by done. apply Hen.
  - intros r Hlt. rewrite Hcur in Hlt. rewrite Hoth by (fold c in Hlt; lia). by apply Hre.
  - intros r Hlt. rewrite Hoth by lia. by apply Hbe.
  - intros r Hge. rewrite Hcur in Hge. destruct (decide (r = c)) as [->|Hne].
    + by rewrite Hnew.
    + rewrite Hoth by done. by apply Hpe.
  - intros r. destruct (decide (r = c)) as [->|Hne].
    + rewrite Hnew. by left.
    + rewrite Hoth by done. apply Hwi.
  - rewrite Hvotes, Hev, List.filter_app. simpl. by rewrite app_nil_r.
  - rewrite Hev, Hcur. unfold revealed_rounds. rewrite omap_app. simpl.
    rewrite app_nil_r. exact Hro.
Qed.

Lemma Ledger_submit pid score a t s s' :
  Inv s -> Ledger s -> submitVote pid score a t s = OK s' -> Ledger s'.
Proof.
  intros HI [Hv Hnd Hvo Hen Hre Hbe Hpe Hwi Hve Hro] H.
  pose proof (inv_round s HI) as Hc1.
  pose proof (submitVote_round _ _ _ _ _ _ H) as Hrd. cbv zeta in Hrd.
  apply submitVote_OK in H
    as (_ & _ & Hsc & Hin & Hnv & Hvotes & Hev & Htp & _ & _ & Hcur & _ & _ & Hoth0 & _).
  set (c := currentVotingRound s) in *.
  apply isProjectInRound_elem in Hin. fold c in Hin.
  assert (forall r, r <> c -> round s' r = round s r) as Hoth
    by (intros r Hne; apply round_ext, Hoth0, Hne).
  assert (votes s !! (c, pid, a) = None) as Hfresh.
  { destruct (votes s !! (c, pid, a)) as [x|] eqn:E; [|done].
    destruct (Hv _ _ _ _ E) as (Hx & _). unfold vote in Hnv. rewrite E in Hnv.
    simpl in Hnv. congruence. }
  assert (forall r p v, hasVoted (vote s r p v) = true -> hasVoted (vote s' r p v) = true)
    as Hkeep.
  { intros r p v Hx. unfold vote. rewrite Hvotes.
    destruct (decide ((c, pid, a) = (r, p, v))) as [<-|Hne].
    - by rewrite lookup_insert_eq.
    - by rewrite lookup_insert_ne. }
  assert (hasVoted (vote s' c pid a) = true) as Hnew
    by (unfold vote; by rewrite Hvotes, lookup_insert_eq).
  split.
  - intros r p v x. rewrite Hvotes, Hcur, Htp.
    destruct (decide ((c, pid, a) = (r, p, v))) as [[= <- <- <-]|Hne].
    + rewrite lookup_insert_eq. intros [= <-]. simpl.
      split; [done|]. split; [by exists score|]. split; [lia | by apply (Hen c)].
    + rewrite lookup_insert_ne by done. apply Hv.
  - intros r. destruct (decide (r = c)) as [->|Hne]; [|rewrite Hoth by done; apply Hnd].
    rewrite Hrd. simpl. destruct (_isVoterInRound _ a) eqn:E; [apply Hnd|].
    apply NoDup_app. split; [apply Hnd|]. split; [|apply NoDup_singleton].
    intros x Hx ->%list_elem_of_singleton.
    apply isVoterInRound_elem in Hx. congruence.
  - intros r v. destruct (decide (r = c)) as [->|Hne].
    + rewrite Hrd. simpl. intros Hx.
      assert (v ∈ voters (round s c) \/ v = a) as [Hold| ->].
      { destruct (_isVoterInRound _ a); [by left|].
        apply elem_of_app in Hx as [?|?%list_elem_of_singleton]; [by left | by right]. }
      * destruct (Hvo c v Hold) as (p & Hp & Hpv). exists p. split; [done | by apply Hkeep].
      * by exists pid.
    + rewrite Hoth by done. intros Hx. destruct (Hvo r v Hx) as (p & Hp & Hpv).
      exists p. split; [done | by apply Hkeep].
  - intros r p. rewrite Htp. destruct (decide (r = c)) as [->|Hne].
    + rewrite Hrd. simpl. apply Hen.
    + rewrite Hoth by done. apply Hen.
  - intros r Hlt. rewrite Hcur in Hlt. rewrite Hoth by (fold c in Hlt; lia). by apply Hre.
  - intros r Hlt. rewrite Hoth by lia. by apply Hbe.
  - intros r Hge. rewrite Hcur in Hge. destruct (decide (r = c)) as [->|Hne].
    + rewrite Hrd. simpl. by apply Hpe.
    + rewrite Hoth by done. by apply Hpe.
  - intros r. destruct (decide (r = c)) as [->|Hne].
    + rewrite Hrd. simpl. apply Hwi.
    + rewrite Hoth by done. apply Hwi.
  - rewrite Hvotes, Hev, List.filter_app, length_app, map_size_insert_None by done.
    simpl. rewrite Hve. lia.
  - rewrite Hev, Hcur. unfold revealed_rounds. rewrite omap_app. simpl.
    rewrite app_nil_r. exact Hro.
Qed.

Lemma Ledger_exec t s s' : Inv s -> Ledger s -> exec t s = OK s' -> Ledger s'.
Proof.
  intros HI HL H. unfold exec in H. destruct (call t).
  - apply proposeProject_OK in H. destruct_and?.
    apply (Ledger_frame s s'); try done; [lia | |].
    + match goal with Hev : events s' = _ |- _ => rewrite Hev end.
      rewrite List.filter_app. simpl. by rewrite app_nil_r.
    + match goal with Hev : events s' = _ |- _ => rewrite Hev end.
      unfold revealed_rounds. rewrite omap_app. simpl. by rewrite app_nil_r.
  - apply authorizeVoter_OK in H. destruct_and?.
    apply (Ledger_frame s s'); try done; [lia | |].
    + match goal with Hev : events s' = _ |- _ => rewrite Hev end.
      rewrite List.filter_app. simpl. by rewrite app_nil_r.
    + match goal with Hev : events s' = _ |- _ => rewrite Hev end.
      unfold revealed_rounds. rewrite omap_app. simpl. by rewrite app_nil_r.
  - apply revokeVoter_OK in H. destruct_and?.
    apply (Ledger_frame s s'); try done; [lia | |].
    + match goal with Hev : events s' = _ |- _ => rewrite Hev end.
      rewrite List.filter_app. simpl. by rewrite app_nil_r.
    + match goal with Hev : events s' = _ |- _ => rewrite Hev end.
      unfold revealed_rounds. rewrite omap_app. simpl. by rewrite app_nil_r.
  - by apply (Ledger_start _ _ _ _ _ HI HL H).
  - by apply (Ledger_submit _ _ _ _ _ _ HI HL H).
  - pose proof (endVotingRound_round _ _ _ _ H) as Hrd. cbv zeta in Hrd.
    apply endVotingRound_OK in H. cbv zeta in H.
    destruct H as (_ & _ & _ & Hvotes & _ & Htp & _ & _ & _ & Hoth & _ & _ & _).
    destruct Hrd as [(Hcur & _ & Hr & Hev & _)|(Hcur & _ & Hr & Hev & _)].
    + apply (Ledger_touch s s'); try done; try (by rewrite Hr).
      apply (inv_round s HI).
    + apply (Ledger_reveal s s' 0 0); try done; try (by rewrite Hr). by left.
  - apply processResults_OK in H as ([w m] & Ht & H). simpl in H.
    apply (Ledger_finalize w m s s' HI HL H).
    apply tally_winner in Ht. exact Ht.
Qed.

Lemma Ledger_reachable s : reachable s -> Ledger s.
Proof.
  induction 1 as [d|s t Hs IH]; [apply Ledger_constructor|].
  unfold apply_tx. destruct (exec t s) as [s'|e] eqn:E; [|done].
  apply (Ledger_exec t s s'); [by apply Inv_reachable | done | done].
Qed.

(** ** Counting votes *)

Lemma getProjectVoteCount_ballots s pid :
  getProjectVoteCount s pid
    = Z.of_nat (ballots (voted_in s (currentVotingRound s) pid)
                  (voters (round s (currentVotingRound s)))).
Proof.
  unfold getProjectVoteCount.
  rewrite (count_voters_total (voted_in s (currentVotingRound s) pid)). lia.
Qed.

Lemma ballots_snoc (f : address -> bool) vs a :
  ballots f (vs ++ [a]) = (ballots f vs + (if f a then 1 else 0))%nat.
Proof.
  unfold ballots. rewrite List.filter_app, length_app. simpl. by destruct (f a).
Qed.

Lemma ballots_ext (f g : address -> bool) vs :
  (forall v, v ∈ vs -> f v = g v) -> ballots f vs = ballots g vs.
Proof.
  unfold ballots. induction vs as [|v vs IH]; intros Hfg; simpl; [done|].
  rewrite (Hfg v) by (apply elem_of_cons; by left).
  destruct (g v); simpl;
    rewrite IH by (intros u Hu; apply Hfg, elem_of_cons; by right); done.
Qed.

Lemma ballots_le (f : address -> bool) vs : (ballots f vs <= length vs)%nat.
Proof. unfold ballots. induction vs as [|v vs IH]; simpl; [lia|]. destruct (f v); simpl; lia. Qed.

(** Switching one listed voter from "has not voted" to "has voted" adds one. *)
Lemma ballots_flip (f g : address -> bool) vs a :
  NoDup vs -> a ∈ vs -> f a = false -> g a = true ->
  (forall v, v <> a -> g v = f v) ->
  ballots g vs = S (ballots f vs).
Proof.
  intros Hnd Hin Hfa Hga Hother.
  induction vs as [|v vs IH]; [by apply elem_of_nil in Hin|].
  apply NoDup_cons in Hnd as [Hv Hnd].
  apply elem_of_cons in Hin as [<-|Hin].
  - unfold ballots. simpl. rewrite Hfa, Hga. simpl. f_equal.
    apply (ballots_ext g f). intros u Hu. apply Hother. intros ->. done.
  - assert (v <> a) as Hne by (intros ->; done).
    specialize (IH Hnd Hin). unfold ballots in *. simpl. rewrite (Hother v Hne).
    destruct (f v); simpl; by rewrite IH.
Qed.

(** ** The batch *)

Lemma collect_voters_app (voted : address -> bool) (h : address -> euint8) vs :
  forall acc,
  fold_left (fun cts v => if voted v then cts ++ [h v] else cts) vs acc
    = acc ++ map h (List.filter voted vs).
Proof.
  induction vs as [|v vs IH]; intros acc; simpl; [by rewrite app_nil_r|].
  rewrite IH. destruct (voted v); simpl; [by rewrite <- app_assoc | done].
Qed.

(** The batch collected by [_requestResultsDecryption] lists, entry after
    entry, the handles of the listed voters who voted for it. *)
Lemma collect_cts_flat voted h ids vs :
  collect_cts voted h ids vs
    = flat_map (fun pid => map (h pid) (List.filter (voted pid) vs)) ids.
Proof.
  unfold collect_cts.
  assert (forall acc,
    fold_left (fun cts pid =>
       fold_left (fun cts v => if voted pid v then cts ++ [h pid v] else cts) vs cts)
       ids acc
    = acc ++ flat_map (fun pid => map (h pid) (List.filter (voted pid) vs)) ids) as Hgen.
  { induction ids as [|pid ids IH]; intros acc; simpl; [by rewrite app_nil_r|].
    rewrite IH, (collect_voters_app (voted pid) (h pid)). by rewrite <- app_assoc. }
  by rewrite Hgen.
Qed.

Lemma collect_cts_batch s :
  collect_cts (voted_in s (currentVotingRound s))
    (fun pid v => encryptedScore (vote s (currentVotingRound s) pid v))
    (projectIds (round s (currentVotingRound s)))
    (voters (round s (currentVotingRound s)))
  = batch_of s (currentVotingRound s).
Proof. by rewrite collect_cts_flat. Qed.

Lemma cast_handles_length s r pid :
  length (cast_handles s r pid) = ballots (voted_in s r pid) (voters (round s r)).
Proof. unfold cast_handles, ballots. by rewrite length_map. Qed.

Lemma batch_of_length s r :
  length (batch_of s r)
    = total_ballots (voted_in s r) (voters (round s r)) (projectIds (round s r)).
Proof.
  unfold batch_of. induction (projectIds (round s r)) as [|pid ids IH]; simpl; [done|].
  by rewrite length_app, cast_handles_length, IH.
Qed.

(** Handing back the plaintexts of the batch gives every entry the sum of the
    scores cast for it. *)
Lemma aggregates_batch s r ids : forall tail,
  aggregates (voted_in s r) (voters (round s r)) ids
    (map decrypt (flat_map (cast_handles s r) ids) ++ tail)
  = map (score_sum s r) ids.
Proof.
  induction ids as [|pid ids IH]; intros tail; simpl; [done|].
  rewrite map_app, <- app_assoc.
  assert (length (map decrypt (cast_handles s r pid))
          = ballots (voted_in s r pid) (voters (round s r))) as Hlen
    by (by rewrite length_map, cast_handles_length).
  rewrite <- Hlen, take_app_length, drop_app_length, IH. done.
Qed.

(** ** Rounds below the counter and the batch of the current round *)

Lemma exec_past t s s' r :
  exec t s = OK s' -> r < currentVotingRound s ->
  round s' r = round s r /\
  currentVotingRound s <= currentVotingRound s' /\
  forall pid v, votes s' !! (r, pid, v) = votes s !! (r, pid, v).
Proof.
  intros H Hr. pose proof H as H0. unfold exec in H0. destruct (call t).
  - apply proposeProject_OK in H0. destruct_and?.
    split; [apply round_ext; congruence|]. split; [lia|]. intros. congruence.
  - apply authorizeVoter_OK in H0. destruct_and?.
    split; [apply round_ext; congruence|]. split; [lia|]. intros. congruence.
  - apply revokeVoter_OK in H0. destruct_and?.
    split; [apply round_ext; congruence|]. split; [lia|]. intros. congruence.
  - apply startVotingRound_OK in H0
      as (_ & _ & Hvr & _ & _ & _ & Hv & _ & Hc & _).
    split; [apply round_ext; rewrite Hvr; apply lookup_insert_ne; lia|].
    split; [lia|]. intros. congruence.
  - apply submitVote_OK in H0
      as (_ & _ & _ & _ & _ & Hv & _ & _ & _ & _ & Hc & _ & _ & Hoth & _).
    split; [apply round_ext, Hoth; lia|]. split; [lia|].
    intros pid v. rewrite Hv. apply lookup_insert_ne. intros [= Heq _ _]. lia.
  - apply endVotingRound_OK in H0. cbv zeta in H0.
    destruct H0 as (_ & _ & _ & Hv & _ & _ & _ & _ & _ & Hoth & _ & _ & Hcase).
    split; [apply Hoth; lia|].
    split; [destruct Hcase as [[Hc _]|[Hc _]]; lia|].
    intros. congruence.
  - apply processResults_OK in H0 as (w & _ & H0). apply finalize_OK in H0.
    cbv zeta in H0.
    destruct H0 as (_ & Hc & _ & _ & _ & _ & _ & Hoth & Hv & _).
    split; [apply Hoth; lia|]. split; [lia|]. intros. congruence.
Qed.

Lemma batch_empty_iff s :
  batch_of s (currentVotingRound s) = [] <->
  count_votes (voted_in s (currentVotingRound s))
    (projectIds (round s (currentVotingRound s)))
    (voters (round s (currentVotingRound s))) = 0.
Proof.
  rewrite count_votes_total, <- batch_of_length.
  destruct (batch_of s (currentVotingRound s)); simpl; split; try done; lia.
Qed.

(** A run of calls leaves the rounds below the counter as they are. *)
Lemma run_past txs : forall s r,
  r < currentVotingRound s ->
  round (run txs s) r = round s r /\
  currentVotingRound s <= currentVotingRound (run txs s).
Proof.
  induction txs as [|t txs IH]; intros s r Hr; simpl; [split; [done | lia]|].
  assert (round (apply_tx s t) r = round s r /\
          currentVotingRound s <= currentVotingRound (apply_tx s t)) as [Hrd Hc].
  { unfold apply_tx. destruct (exec t s) as [s'|e] eqn:E; [|split; [done | lia]].
    destruct (exec_past t s s' r E Hr) as (H1 & H2 & _). done. }
  destruct (IH (apply_tx s t) r) as [IH1 IH2]; [lia|].
  split; [congruence | lia].
Qed.

(** A close that keeps the round number has sent one request: the batch of
    the round, which is not empty and reads the same after the call. *)
Lemma endVotingRound_request a t s s' :
  endVotingRound a t s = OK s' ->
  currentVotingRound s' = currentVotingRound s ->
  batch_of s' (currentVotingRound s') = batch_of s (currentVotingRound s) /\
  batch_of s (currentVotingRound s) <> [] /\
  decryptionRequests s' = decryptionRequests s ++ [batch_of s' (currentVotingRound s')].
Proof.
  intros H Hcur.
  pose proof (endVotingRound_round _ _ _ _ H) as Hrd. cbv zeta in Hrd.
  apply endVotingRound_OK in H. cbv zeta in H.
  destruct H as (_ & _ & _ & Hv & _).
  destruct Hrd as [(_ & Hpos & Hr & _ & Hdr)|(Hnext & _)]; [|lia].
  assert (batch_of s' (currentVotingRound s') = batch_of s (currentVotingRound s)) as Hb.
  { rewrite Hcur. unfold batch_of, cast_handles, voted_in, vote. by rewrite Hr, Hv. }
  split; [exact Hb|]. split.
  - intros Hnil%batch_empty_iff. lia.
  - by rewrite Hb, Hdr, collect_cts_batch.
Qed.

(** The error of a [submitVote] for a triple that already holds a vote: the
    first check, in the order of the code, that does not hold. *)
Lemma submitVote_voted_error s pid score a t :
  hasVoted (vote s (currentVotingRound s) pid a) = true ->
  exists e,
    submitVote pid score a t s = Revert e /\
    (authorized s a = false -> e = NotAuthorizedToVote) /\
    (authorized s a = true ->
     votingActive (round s (currentVotingRound s)) = false -> e = VotingNotActive) /\
    (authorized s a = true ->
     votingActive (round s (currentVotingRound s)) = true ->
     ~ (1 <= score <= 10) -> e = ScoreOutOfRange) /\
    (authorized s a = true ->
     votingActive (round s (currentVotingRound s)) = true ->
     1 <= score <= 10 ->
     _isProjectInCurrentRound s pid = false -> e = ProjectNotInRound) /\
    (authorized s a = true ->
     votingActive (round s (currentVotingRound s)) = true ->
     1 <= score <= 10 ->
     _isProjectInCurrentRound s pid = true -> e = AlreadyVoted).
Proof.
  intros Hv. unfold submitVote, onlyAuthorizedVoter, onlyDuringVoting. rewrite Hv.
  destruct (authorized s a); simpl;
    [|eexists; split; [done|]; repeat split; intros; congruence].
  destruct (votingActive _); simpl;
    [|eexists; split; [done|]; repeat split; intros; congruence].
  destruct ((1 <=? score) && (score <=? 10)) eqn:Hsc; simpl.
  - apply andb_true_iff in Hsc as [H1%Z.leb_le H2%Z.leb_le].
    destruct (_isProjectInCurrentRound s pid); simpl;
      eexists; (split; [done|]); repeat split; intros; (congruence || lia).
  - assert (~ (1 <= score <= 10)) as Hout
      by (apply andb_false_iff in Hsc as [Hsc|Hsc]; apply Z.leb_gt in Hsc; lia).
    eexists. split; [done|]. repeat split; intros; (congruence || lia).
Qed.

(** The callback does not read the log of the requests sent. *)
Lemma processResults_ignores_requests rid scores sigs a t reqs s :
  processResults rid scores sigs a t (set_decryptionRequests reqs s)
    = match processResults rid scores sigs a t s with
      | OK s' => OK (set_decryptionRequests reqs s')
      | Revert e => Revert e
      end.
Proof.
  rewrite !processResults_unfold.
  change (currentVotingRound (set_decryptionRequests reqs s)) with (currentVotingRound s).
  change (round (set_decryptionRequests reqs s)) with (round s).
  change (voted_in (set_decryptionRequests reqs s)) with (voted_in s).
  destruct (tally _ _ _ _) as [w|e]; [|done].
  unfold _finalizeResults.
  change (currentVotingRound (set_decryptionRequests reqs s)) with (currentVotingRound s).
  destruct (checked_add8 (currentVotingRound s) 1); done.
Qed.

(** A list of zeros of any length is accepted while the counter is below 255. *)
Lemma processResults_zeros rid k sigs a t s :
  currentVotingRound s < 255 ->
  exists s',
    processResults rid (replicate k 0) sigs a t s = OK s' /\
    resultsRevealed (round s' (currentVotingRound s)) = true /\
    currentVotingRound s' = currentVotingRound s + 1.
Proof.
  intros Hc. rewrite processResults_unfold.
  assert (Forall uint8 (replicate k 0)) as Hz
    by (apply Forall_replicate; unfold uint8; lia).
  rewrite (tally_spec _ Hz). cbv zeta.
  change (replicate k 0) with ([] ++ replicate k 0). rewrite aggregates_pad.
  set (aggs := aggregates _ _ _ []).
  assert (Forall (fun x => x = 0) aggs) as Hall.
  { subst aggs. induction (projectIds _) as [|pid ids IH]; simpl; [constructor|].
    rewrite take_nil, drop_nil. constructor; [done | exact IH]. }
  assert (fits8 aggs = true) as ->.
  { apply fits8_Forall. eapply Forall_impl; [exact Hall|]. simpl. intros; lia. }
  set (w := (if 0 <? max_aggregate aggs then _ else _, max_aggregate aggs)).
  pose proof (finalize_spec w.1 w.2 s) as Hf. cbv zeta in Hf.
  rewrite (proj2 (Z.ltb_lt _ _) Hc) in Hf.
  destruct Hf as (s' & Hok & Hcur & Hrev & _).
  exists s'. split; [exact Hok|]. split; [exact Hrev | exact Hcur].
Qed.

(** * The claims *)

(** ** Replaying the callback *)

(** C1 (as amended). The contract keeps no record of request ids. After a
    first [processResults] with some request id, a second call with the same
    id, at once or after any further calls, is treated as any other call: it
    is never rejected as already processed (its only failure is the
    arithmetic panic); when it succeeds it reveals one more round, the one
    that is current by then, and advances the counter once more. Called at
    once on a reachable storage it does succeed, whatever the plaintexts,
    unless the counter has reached 255. In every case the record of the round
    finalized by the first call, its winner fields included, is changed
    neither by the calls in between nor by the second call. *)
Theorem processResults_replay s rid scores sigs caller time s1 :
  processResults rid scores sigs caller time s = OK s1 ->
  forall txs scores' sigs' caller' time',
  let r := currentVotingRound s in
  let s2 := run txs s1 in
  let second := processResults rid scores' sigs' caller' time' s2 in
  let after := apply_tx s2 (tx (ProcessResults rid scores' sigs') caller' time') in
  r < currentVotingRound s2 /\
  round s2 r = round s1 r /\
  (forall e, second = Revert e ->
     e = ArithmeticPanic /\ kind_of e <> Some AlreadyProcessed) /\
  (forall s3, second = OK s3 ->
     currentVotingRound s3 = currentVotingRound s2 + 1 /\
     resultsRevealed (round s3 (currentVotingRound s2)) = true /\
     round s3 r = round s1 r) /\
  (txs = [] -> reachable s -> r + 1 < 255 ->
     exists s3, second = OK s3 /\ currentVotingRound s3 = r + 2 /\
                winningProjectId (round s3 (r + 1)) = 0) /\
  winningProjectId (round after r) = winningProjectId (round s1 r) /\
  maxScore (round after r) = maxScore (round s1 r).
Proof.
  intros H1 txs scores' sigs' caller' time' r s2 second after.
  destruct (processResults_other_rounds _ _ _ _ _ _ _ H1) as (Hcur1 & _ & Hothers1).
  fold r in Hcur1, Hothers1.
  destruct (run_past txs s1 r) as [Hrd2 Hcur2]; [lia|]. fold s2 in Hrd2, Hcur2.
  assert (forall s3, second = OK s3 ->
     currentVotingRound s3 = currentVotingRound s2 + 1 /\
     resultsRevealed (round s3 (currentVotingRound s2)) = true /\
     round s3 r = round s1 r) as Hok.
  { intros s3 H3.
    subst second.
    apply processResults_other_rounds in H3 as (Hcur3 & Hrev3 & Hothers3).
    split; [done|]. split; [done|]. rewrite Hothers3 by lia. exact Hrd2. }
  split; [lia|]. split; [exact Hrd2|]. split; [|split; [exact Hok|split]].
  - intros e He. apply processResults_revert in He as ->. split; [done | discriminate].
  - intros Hnil Hreach Hlt. subst second s2. rewrite Hnil. simpl.
    rewrite processResults_unfold. rewrite Hcur1.
    assert (round s1 (r + 1) = zeroRound) as ->.
    { rewrite Hothers1 by lia. apply (inv_future s (Inv_reachable s Hreach)).
      fold r. lia. }
    simpl. unfold tally. simpl.
    pose proof (finalize_spec 0 0 s1) as Hf. cbv zeta in Hf. rewrite Hcur1 in Hf.
    rewrite (proj2 (Z.ltb_lt _ _) Hlt) in Hf.
    destruct Hf as (s3 & -> & Hc3 & _ & Hw & _). exists s3.
    split; [done|]. split; [lia | done].
  - subst after. unfold apply_tx, exec. simpl. fold second.
    destruct second as [s3|e] eqn:E; [|by rewrite Hrd2].
    destruct (Hok s3 eq_refl) as (_ & _ & ->). done.
Qed.

Lemma processResults_replay_witness :
  let later := [tx (ProposeProject "Project C" "Description C" "Category C") carol 21] in
  exists s1 s3,
    processResults 0 [8; 9] [] oracle 20 (run closed_round (constructor deployer)) = OK s1 /\
    processResults 0 [8; 9] [] oracle 22 (run later s1) = OK s3 /\
    currentVotingRound s3 = 3 /\
    round s3 1 = round s1 1.
Proof.
  cbv zeta.
  set (later := [tx (ProposeProject "Project C" "Description C" "Category C") carol 21]).
  set (s0 := run closed_round (constructor deployer)).
  set (s1 := apply_tx s0 (tx (ProcessResults 0 [8; 9] []) oracle 20)).
  set (s3 := apply_tx (run later s1) (tx (ProcessResults 0 [8; 9] []) oracle 22)).
  assert (processResults 0 [8; 9] [] oracle 20 s0 = OK s1) as H1
    by (vm_compute; reflexivity).
  assert (processResults 0 [8; 9] [] oracle 22 (run later s1) = OK s3) as H3
    by (vm_compute; reflexivity).
  assert (currentVotingRound s0 = 1) as Hr by (vm_compute; reflexivity).
  assert (currentVotingRound (run later s1) = 2) as Hr2 by (vm_compute; reflexivity).
  destruct (processResults_replay s0 0 [8; 9] [] oracle 20 s1 H1 later [8; 9] [] oracle 22)
    as (_ & _ & _ & Hok & _).
  destruct (Hok s3 H3) as (Hc & _ & Hrd).
  rewrite Hr in Hrd. rewrite Hr2 in Hc.
  exists s1, s3. split; [exact H1|]. split; [exact H3|]. split; [exact Hc | exact Hrd].
Defined.

(** A delayed replay can hit the arithmetic panic: after the first answer a
    second round is opened, Alice and Bob both vote for entry 1 and the round
    is closed; the same request id with the plaintexts 200 and 100 then
    reverts, 300 being no [uint8]. *)
Lemma processResults_replay_can_panic :
  let s1 := run (closed_round ++ [tx (ProcessResults 0 [8; 9] []) oracle 20])
              (constructor deployer) in
  let s2 := run [tx (StartVotingRound [1; 2]) deployer 21;
                 tx (SubmitVote 1 10) alice 22; tx (SubmitVote 1 10) bob 23;
                 tx EndVotingRound deployer 24] s1 in
  currentVotingRound s2 = 2 /\
  processResults 0 [200; 100] [] oracle 25 s2 = Revert ArithmeticPanic.
Proof. cbv zeta. split; vm_compute; reflexivity. Qed.

(** C1, the claim as worded fails: after the oracle's answer to the closed
    round, the same call with the same request id is accepted again; it
    reveals round 2 and moves the counter to 3. *)
Lemma processResults_replay_accepted :
  let s0 := run closed_round (constructor deployer) in
  let s1 := apply_tx s0 (tx (ProcessResults 0 [8; 9] []) oracle 20) in
  let s2 := apply_tx s1 (tx (ProcessResults 0 [8; 9] []) oracle 21) in
  processResults 0 [8; 9] [] oracle 20 s0 = OK s1 /\
  processResults 0 [8; 9] [] oracle 21 s1 = OK s2 /\
  currentVotingRound s1 = 2 /\
  currentVotingRound s2 = 3 /\
  resultsRevealed (round s2 2) = true.
Proof. cbv zeta. split; [|split; [|split; [|split]]]; vm_compute; reflexivity. Qed.

(** ** Who may call the callback, and when *)

(** C2 (as amended). [processResults] checks neither the caller, nor the state
    of the round, nor the request id: for every storage, caller, request id and
    [uint8] plaintext list its only failure is the arithmetic panic of [uint8].
    When no per-entry sum exceeds 255 and the round counter is below 255 it
    succeeds, reveals the current round, writes the winner fields and adds
    exactly one to the round counter; otherwise it reverts with the panic. *)
Theorem processResults_unguarded s rid scores sigs caller time :
  Forall uint8 scores ->
  let r := currentVotingRound s in
  let aggs := aggregates (voted_in s r) (voters (round s r))
                (projectIds (round s r)) scores in
  if fits8 aggs && (r <? 255)
  then exists s',
         processResults rid scores sigs caller time s = OK s' /\
         resultsRevealed (round s' r) = true /\
         winningProjectId (round s' r) =
           (if 0 <? max_aggregate aggs
            then first_max_entry (projectIds (round s r)) aggs else 0) /\
         maxScore (round s' r) = max_aggregate aggs /\
         currentVotingRound s' = r + 1
  else processResults rid scores sigs caller time s = Revert ArithmeticPanic.
Proof.
  intros Hs r aggs. rewrite processResults_unfold. fold r.
  pose proof (tally_spec scores Hs (voters (round s r)) (voted_in s r)
                (projectIds (round s r))) as Ht.
  cbv zeta in Ht. fold aggs in Ht. rewrite Ht. clear Ht.
  destruct (fits8 aggs); simpl; [|done].
  set (w := if 0 <? max_aggregate aggs then _ else _).
  pose proof (finalize_spec w (max_aggregate aggs) s) as Hf. cbv zeta in Hf. fold r in Hf.
  destruct (r <? 255); [|done].
  destruct Hf as (s' & Hs' & Hcur & Hrev & Hw & Hm & _).
  exists s'. by repeat split.
Qed.

Lemma processResults_unguarded_witness :
  exists s',
    processResults 0 [8; 9] [] oracle 20 (run closed_round (constructor deployer)) = OK s' /\
    winningProjectId (round s' 1) = 2 /\ maxScore (round s' 1) = 9 /\
    currentVotingRound s' = 2.
Proof.
  pose proof (processResults_unguarded (run closed_round (constructor deployer))
                0 [8; 9] [] oracle 20) as H.
  cbv zeta in H.
  assert (Forall uint8 [8; 9]) as Hs by (repeat constructor; unfold uint8; lia).
  specialize (H Hs).
  set (b := fits8 _ && _) in H.
  assert (b = true) as Hb by (vm_compute; reflexivity).
  rewrite Hb in H. clear b Hb.
  destruct H as (s' & H1 & _ & H3 & H4 & H5).
  exists s'. split; [exact H1|].
  assert (currentVotingRound (run closed_round (constructor deployer)) = 1) as Hr
    by (vm_compute; reflexivity).
  rewrite Hr in H3, H4, H5.
  split; [|split].
  - rewrite H3. vm_compute. reflexivity.
  - rewrite H4. vm_compute. reflexivity.
  - rewrite H5. reflexivity.
Defined.

(** C2, the claim as worded fails in reachable states: with two votes cast
    for one entry the plaintexts 200 and 100 overflow the [uint8] sum, and in
    round 255 the counter cannot be incremented; both calls revert. *)
Lemma processResults_can_revert :
  reachable (run two_votes_one_entry (constructor deployer)) /\
  processResults 0 [200; 100] [] oracle 20
    (run two_votes_one_entry (constructor deployer)) = Revert ArithmeticPanic /\
  reachable (run last_round (constructor deployer)) /\
  currentVotingRound (run last_round (constructor deployer)) = 255 /\
  processResults 0 [] [] oracle 23
    (run last_round (constructor deployer)) = Revert ArithmeticPanic.
Proof.
  split; [apply reachable_run, reachable_init|].
  split; [vm_compute; reflexivity|].
  split; [apply reachable_run, reachable_init|].
  split; vm_compute; reflexivity.
Qed.

(** ** The winner *)

(** C3 (as amended). Let the per-entry sums be those of the submitted votes,
    plaintexts consumed in snapshot order and, within an entry, in voter
    insertion order. For [uint8] plaintexts, when no sum exceeds 255 the
    reduction returns the maximum sum and, when that maximum is positive, the
    first entry in snapshot order that reaches it: every earlier entry has a
    strictly smaller sum. When every sum is zero it returns winner 0 and
    score 0. The result is a function of these inputs alone. *)
Theorem tally_first_strict_max voted ids vs scores :
  Forall uint8 scores ->
  let aggs := aggregates voted vs ids scores in
  Forall (fun a => a <= 255) aggs ->
  let M := max_aggregate aggs in
  Forall (fun a => a <= M) aggs /\
  (0 < M ->
     exists i w,
       ids !! i = Some w /\ aggs !! i = Some M /\
       (forall j a, (j < i)%nat -> aggs !! j = Some a -> a < M) /\
       w = first_max_entry ids aggs /\
       tally voted ids vs scores = OK (w, M)) /\
  (M = 0 -> tally voted ids vs scores = OK (0, 0)) /\
  (forall r1 r2,
     tally voted ids vs scores = r1 -> tally voted ids vs scores = r2 -> r1 = r2).
Proof.
  intros Hs aggs Hfit M.
  pose proof (tally_spec scores Hs vs voted ids) as Ht. cbv zeta in Ht. fold aggs in Ht.
  rewrite (proj2 (fits8_Forall aggs) Hfit) in Ht. fold M in Ht.
  pose proof (max_aggregate_bound aggs) as Hbound. fold M in Hbound.
  split; [exact Hbound|]. split; [|split].
  - intros Hpos.
    assert (length ids = length aggs) as Hlen
      by (subst aggs; by rewrite aggregates_length).
    destruct (first_achieving_first M ids aggs Hlen (max_aggregate_reached aggs Hpos))
      as (i & Hi1 & Hi2 & Hi3).
    exists i, (first_max_entry ids aggs). repeat split; try done.
    + intros j a Hj Ha. specialize (Hi3 j a Hj Ha).
      rewrite Forall_forall in Hbound.
      assert (a <= M) by (apply Hbound; eapply list_elem_of_lookup_2, Ha). lia.
    + rewrite Ht. by rewrite (proj2 (Z.ltb_lt 0 M) Hpos).
  - intros HM. rewrite Ht, HM. done.
  - intros r1 r2 <- <-. done.
Qed.

Lemma tally_first_strict_max_witness :
  exists i w,
    [1; 2] !! i = Some w /\
    aggregates (fun _ _ => true) [alice; bob] [1; 2] [3; 4; 5; 2] !! i = Some 7 /\
    tally (fun _ _ => true) [1; 2] [alice; bob] [3; 4; 5; 2] = OK (w, 7).
Proof.
  pose proof (tally_first_strict_max (fun _ _ => true) [1; 2] [alice; bob] [3; 4; 5; 2]) as H.
  cbv zeta in H.
  destruct H as (_ & Hpos & _).
  - repeat constructor; unfold uint8; lia.
  - repeat constructor; vm_compute; discriminate.
  - destruct Hpos as (i & w & H1 & H2 & _ & _ & H3); [vm_compute; reflexivity|].
    exists i, w. repeat split; assumption.
Defined.

(** C3, the claim as worded fails: 26 votes of 10 for one entry sum to 260 and
    the reduction panics instead of selecting the entry; and with all sums
    zero the reduction returns 0, not the first entry reaching the maximum. *)
Lemma tally_not_always_first_max :
  tally (fun _ _ => true) [1] (N.of_nat <$> seq 2 26) (repeat 10 26)
    = Revert ArithmeticPanic /\
  aggregates (fun _ _ => true) (N.of_nat <$> seq 2 26) [1] (repeat 10 26) = [260] /\
  tally (fun _ _ => true) [1; 2] [alice] [0; 0] = OK (0, 0) /\
  first_max_entry [1; 2] (aggregates (fun _ _ => true) [alice] [1; 2] [0; 0]) = 1.
Proof. vm_compute. repeat split; reflexivity. Qed.

(** ** Submitting outside an open round *)

(** C4 (as amended). While the current round is not open, every [submitVote]
    fails, whatever the entry, the caller and the score, and leaves the
    storage as it was; the authorization check comes first, so the call fails
    as not active for an authorized caller and as unauthorized for any
    other. *)
Theorem submitVote_not_open s pid score caller time :
  votingActive (round s (currentVotingRound s)) = false ->
  exists e,
    submitVote pid score caller time s = Revert e /\
    (authorized s caller = true ->
       e = VotingNotActive /\ kind_of e = Some NotActive) /\
    (authorized s caller = false ->
       e = NotAuthorizedToVote /\ kind_of e = Some Unauthorized) /\
    apply_tx s (tx (SubmitVote pid score) caller time) = s.
Proof.
  intros Hclosed. unfold apply_tx, exec. simpl.
  unfold submitVote, onlyAuthorizedVoter, onlyDuringVoting. rewrite Hclosed.
  destruct (authorized s caller); simpl.
  - exists VotingNotActive. repeat split; done.
  - exists NotAuthorizedToVote. repeat split; done.
Qed.

Lemma submitVote_not_open_witness :
  exists e,
    submitVote 1 8 alice 30 (run closed_round (constructor deployer)) = Revert e /\
    e = VotingNotActive.
Proof.
  destruct (submitVote_not_open (run closed_round (constructor deployer)) 1 8 alice 30)
    as (e & He & Hauth & _).
  - vm_compute. reflexivity.
  - exists e. split; [exact He|]. apply Hauth. vm_compute. reflexivity.
Defined.

(** C4, the claim as worded fails: after the round is closed, a caller who
    is not an authorized voter is turned away as unauthorized, not as not
    active. *)
Lemma submitVote_not_open_unauthorized :
  let s0 := run closed_round (constructor deployer) in
  votingActive (round s0 (currentVotingRound s0)) = false /\
  authorized s0 carol = false /\
  submitVote 1 8 carol 30 s0 = Revert NotAuthorizedToVote /\
  kind_of NotAuthorizedToVote = Some Unauthorized.
Proof. cbv zeta. split; [|split; [|split]]; vm_compute; reflexivity. Qed.

(** ** One vote per round, entry and voter *)

(** C5. Once [submitVote] has been accepted for a round, an entry and a
    voter, the stored vote holds the encrypted score and the time of that
    call, and no later sequence of calls changes it: at most one vote ever
    exists for the triple. Every later [submitVote] of that voter for that
    entry in that round fails and leaves the whole storage as it was. It
    fails as a duplicate whenever it gets as far as the duplicate check, the
    last one of the call; the checks before it keep their order, so a call
    that fails one of them (the voter no longer authorized, the round no
    longer open, the score outside 1 to 10, the entry not in the round)
    reports the first that fails. *)
Theorem submitVote_once s pid score caller time s1 :
  submitVote pid score caller time s = OK s1 ->
  let r := currentVotingRound s in
  hasVoted (vote s r pid caller) = false /\
  votes s1 !! (r, pid, caller) =
    Some {| encryptedScore := Enc score; hasVoted := true; timestamp := time |} /\
  forall txs,
    let s2 := run txs s1 in
    votes s2 !! (r, pid, caller) = votes s1 !! (r, pid, caller) /\
    forall score' time',
      currentVotingRound s2 = r ->
      exists e,
        submitVote pid score' caller time' s2 = Revert e /\
        apply_tx s2 (tx (SubmitVote pid score') caller time') = s2 /\
        (authorized s2 caller = true ->
         votingActive (round s2 r) = true ->
         1 <= score' <= 10 ->
         _isProjectInCurrentRound s2 pid = true ->
         e = AlreadyVoted /\ kind_of e = Some DuplicateSubmission) /\
        (authorized s2 caller = false -> e = NotAuthorizedToVote) /\
        (authorized s2 caller = true -> votingActive (round s2 r) = false ->
         e = VotingNotActive) /\
        (authorized s2 caller = true -> votingActive (round s2 r) = true ->
         ~ (1 <= score' <= 10) -> e = ScoreOutOfRange) /\
        (authorized s2 caller = true -> votingActive (round s2 r) = true ->
         1 <= score' <= 10 -> _isProjectInCurrentRound s2 pid = false ->
         e = ProjectNotInRound).
Proof.
  intros H r. apply submitVote_OK in H as (_ & _ & _ & _ & Hnv & Hvotes & _).
  fold r in Hnv, Hvotes.
  assert (votes s1 !! (r, pid, caller) =
    Some {| encryptedScore := Enc score; hasVoted := true; timestamp := time |}) as H1
    by (rewrite Hvotes; apply lookup_insert_eq).
  assert (hasVoted (vote s1 r pid caller) = true) as Hv1
    by (unfold vote; by rewrite H1).
  split; [done|]. split; [done|]. intros txs s2.
  pose proof (run_keeps_vote txs s1 r pid caller Hv1) as Hkeep. fold s2 in Hkeep.
  split; [done|]. intros score' time' Hcur.
  assert (hasVoted (vote s2 (currentVotingRound s2) pid caller) = true) as Hv2
    by (rewrite Hcur; unfold vote; by rewrite Hkeep, H1).
  destruct (submitVote_voted_error s2 pid score' caller time' Hv2)
    as (e & He & Hauth & Hact & Hsc & Hin & Hdup).
  rewrite Hcur in Hact, Hsc, Hin, Hdup.
  exists e. split; [done|]. split.
  { unfold apply_tx, exec. simpl. by rewrite He. }
  split; [|split; [exact Hauth | split; [exact Hact | split; [exact Hsc | exact Hin]]]].
  intros Ha Hopen Hrange Hmem. rewrite (Hdup Ha Hopen Hrange Hmem). done.
Qed.

Lemma submitVote_once_witness :
  let s0 := run open_round (constructor deployer) in
  exists s1 e,
    submitVote 1 8 alice 15 s0 = OK s1 /\
    submitVote 1 7 alice 16 (run [tx (SubmitVote 2 9) bob 16] s1) = Revert e /\
    e = AlreadyVoted.
Proof.
  cbv zeta.
  set (s0 := run open_round (constructor deployer)).
  set (s1 := apply_tx s0 (tx (SubmitVote 1 8) alice 15)).
  assert (submitVote 1 8 alice 15 s0 = OK s1) as H1 by (vm_compute; reflexivity).
  destruct (submitVote_once s0 1 8 alice 15 s1 H1) as (_ & _ & H).
  destruct (H [tx (SubmitVote 2 9) bob 16]) as (_ & H2).
  destruct (H2 7 16) as (e & He & _ & Hdup & _); [vm_compute; reflexivity|].
  exists s1, e. split; [exact H1|]. split; [exact He|].
  assert (currentVotingRound s0 = 1) as Hr by (vm_compute; reflexivity).
  rewrite Hr in Hdup.
  apply Hdup; [vm_compute; reflexivity | vm_compute; reflexivity | lia
              | vm_compute; reflexivity].
Defined.

(** The earlier checks at work on a triple that holds a vote: while the round
    is open Alice's second vote for entry 1 with score 0 stops at the score
    range, and once the round is closed (the round number is still 1) it
    stops at the state of the round. *)
Lemma submitVote_again_earlier_checks :
  let s1 := run (open_round ++ [tx (SubmitVote 1 8) alice 15]) (constructor deployer) in
  let s2 := run closed_round (constructor deployer) in
  hasVoted (vote s1 1 1 alice) = true /\
  submitVote 1 0 alice 16 s1 = Revert ScoreOutOfRange /\
  currentVotingRound s2 = 1 /\
  hasVoted (vote s2 1 1 alice) = true /\
  submitVote 1 7 alice 18 s2 = Revert VotingNotActive.
Proof. cbv zeta. split; [|split; [|split; [|split]]]; vm_compute; reflexivity. Qed.

(** ** The length of the plaintext list *)

(** C6 (as amended). [processResults] compares no lengths and never fails
    with a mismatch: it does not read the requests that were sent, and its
    only failure, whatever the length of the list, is the arithmetic panic.
    A [uint8] plaintext list shorter than the batch of the current round is
    processed exactly as the same list padded with zeros (the votes left
    without a plaintext add nothing), and a longer one exactly as the list
    cut to the size of that batch; when the call answers the close of the
    round, that batch is the request last sent. Whenever the call succeeds,
    with a list of the right length or not, it reveals the round and advances
    the counter, and while the counter is below 255 there are lists of every
    length that succeed. *)
Theorem processResults_length_unchecked s rid sigs caller time :
  let r := currentVotingRound s in
  let n := length (batch_of s r) in
  (forall s0 a t,
     endVotingRound a t s0 = OK s -> currentVotingRound s = currentVotingRound s0 ->
     last (decryptionRequests s) = Some (batch_of s r)) /\
  (forall reqs scores,
     processResults rid scores sigs caller time (set_decryptionRequests reqs s)
       = match processResults rid scores sigs caller time s with
         | OK s' => OK (set_decryptionRequests reqs s')
         | Revert e => Revert e
         end) /\
  (forall scores e, processResults rid scores sigs caller time s = Revert e ->
     e = ArithmeticPanic /\ kind_of e <> Some Mismatch) /\
  (forall scores s', processResults rid scores sigs caller time s = OK s' ->
     resultsRevealed (round s' r) = true /\ currentVotingRound s' = r + 1) /\
  (forall scores, Forall uint8 scores ->
     (forall k, processResults rid (scores ++ replicate k 0) sigs caller time s
                = processResults rid scores sigs caller time s) /\
     (forall m, (n <= m)%nat ->
        processResults rid (take m scores) sigs caller time s
          = processResults rid scores sigs caller time s)) /\
  (r < 255 ->
   forall k, exists s',
     length (replicate k 0) = k /\
     processResults rid (replicate k 0) sigs caller time s = OK s').
Proof.
  intros r n. split; [|split; [|split; [|split; [|split]]]].
  - intros s0 a t H Hcur.
    destruct (endVotingRound_request a t s0 s H Hcur) as (_ & _ & ->).
    apply last_snoc.
  - intros reqs scores. apply processResults_ignores_requests.
  - intros scores e He. apply processResults_revert in He as ->.
    split; [done | discriminate].
  - intros scores s' H.
    apply processResults_other_rounds in H as (Hcur & Hrev & _). done.
  - intros scores Hs. split.
    + intros k. rewrite !processResults_unfold. fold r.
      rewrite !tally_spec.
      * by rewrite aggregates_pad.
      * done.
      * apply Forall_app. split; [done|]. apply Forall_replicate. unfold uint8. lia.
    + intros m Hm. rewrite !processResults_unfold. fold r.
      rewrite !tally_spec.
      * rewrite aggregates_take; [done|]. subst n. by rewrite batch_of_length in Hm.
      * done.
      * by apply Forall_take.
  - intros Hr k.
    destruct (processResults_zeros rid k sigs caller time s Hr) as (s' & H & _).
    exists s'. split; [apply length_replicate | exact H].
Qed.

Lemma processResults_length_unchecked_witness :
  let s0 := run closed_round (constructor deployer) in
  last (decryptionRequests s0) = Some [Enc 8; Enc 9] /\
  processResults 0 (take 2 [8; 9; 7]) [] oracle 20 s0
    = processResults 0 [8; 9; 7] [] oracle 20 s0 /\
  processResults 0 ([8] ++ replicate 1 0) [] oracle 20 s0
    = processResults 0 [8] [] oracle 20 s0 /\
  exists s', processResults 0 (replicate 5 0) [] oracle 20 s0 = OK s'.
Proof.
  cbv zeta.
  set (s0 := run closed_round (constructor deployer)).
  pose proof (processResults_length_unchecked s0 0 [] oracle 20) as H.
  cbv zeta in H. destruct H as (Hlast & _ & _ & _ & Hlen & Hzero).
  split; [|split; [|split]].
  - rewrite (Hlast (run (open_round ++ [tx (SubmitVote 1 8) alice 15;
                                         tx (SubmitVote 2 9) bob 16])
                      (constructor deployer)) deployer 17).
    + vm_compute. reflexivity.
    + vm_compute. reflexivity.
    + vm_compute. reflexivity.
  - destruct (Hlen [8; 9; 7]) as [_ Htake].
    + repeat constructor; unfold uint8; lia.
    + apply Htake. vm_compute. lia.
  - destruct (Hlen [8]) as [Hpad _].
    + repeat constructor; unfold uint8; lia.
    + apply Hpad.
  - destruct (Hzero ltac:(vm_compute; reflexivity) 5%nat) as (s' & _ & H).
    by exists s'.
Defined.

(** C6, the claim as worded fails: the closed round holds a batch of two
    encrypted scores, yet a list of one plaintext and a list of three are
    both processed and finalize the round. *)
Lemma processResults_accepts_wrong_length :
  let s0 := run closed_round (constructor deployer) in
  decryptionRequests s0 = [[Enc 8; Enc 9]] /\
  batch_size (voted_in s0 1) (projectIds (round s0 1)) (voters (round s0 1)) = 2%nat /\
  processResults 0 [8] [] oracle 20 s0
    = OK (apply_tx s0 (tx (ProcessResults 0 [8] []) oracle 20)) /\
  winningProjectId (round (apply_tx s0 (tx (ProcessResults 0 [8] []) oracle 20)) 1) = 1 /\
  maxScore (round (apply_tx s0 (tx (ProcessResults 0 [8] []) oracle 20)) 1) = 8 /\
  processResults 0 [8; 9; 7] [] oracle 20 s0
    = OK (apply_tx s0 (tx (ProcessResults 0 [8; 9; 7] []) oracle 20)) /\
  winningProjectId (round (apply_tx s0 (tx (ProcessResults 0 [8; 9; 7] []) oracle 20)) 1) = 2.
Proof.
  cbv zeta. split; [|split; [|split; [|split; [|split; [|split]]]]];
    vm_compute; reflexivity.
Qed.

(** ** Opening a round *)

(** C7. [startVotingRound] fails as unauthorized for a caller other than the
    administrator; for the administrator it fails as already active while the
    current round is open, else as an empty selection for an empty list, else
    as an unknown entry when a listed id is not an active entry; in every
    other case it succeeds: the current round holds the list as given, is
    active and not revealed, starts now, and has no voters and a zero winner,
    and nothing else in the storage changes but the event log. In a reachable
    storage the active entries are exactly the registered ones, the ids from
    1 to [totalProjects]. *)
Theorem startVotingRound_checks s ids caller time :
  let r := currentVotingRound s in
  let res := startVotingRound ids caller time s in
  (caller <> admin s ->
     res = Revert NotAuthorized /\ kind_of NotAuthorized = Some Unauthorized) /\
  (caller = admin s -> votingActive (round s r) = true ->
     res = Revert VotingAlreadyActive /\
     kind_of VotingAlreadyActive = Some AlreadyActive) /\
  (caller = admin s -> votingActive (round s r) = false -> ids = [] ->
     res = Revert NoProjectsSelected /\
     kind_of NoProjectsSelected = Some EmptySelection) /\
  (caller = admin s -> votingActive (round s r) = false -> ids <> [] ->
     (exists id, id ∈ ids /\ isActive (project s id) = false) ->
     res = Revert ProjectNotActive /\ kind_of ProjectNotActive = Some UnknownEntry) /\
  (caller = admin s -> votingActive (round s r) = false -> ids <> [] ->
     (forall id, id ∈ ids -> isActive (project s id) = true) ->
     exists s',
       res = OK s' /\
       round s' r = {| projectIds := ids; votingActive := true;
                       resultsRevealed := false; startTime := time; endTime := 0;
                       voters := []; winningProjectId := 0; maxScore := 0 |} /\
       (forall r', r' <> r -> round s' r' = round s r') /\
       currentVotingRound s' = r /\ projects s' = projects s /\
       votes s' = votes s /\ authorizedVoters s' = authorizedVoters s /\
       totalProjects s' = totalProjects s /\ admin s' = admin s /\
       decryptionRequests s' = decryptionRequests s /\
       events s' = events s ++ [VotingRoundStarted r ids time]) /\
  (reachable s ->
     forall id, isActive (project s id) = true <-> 1 <= id <= totalProjects s).
Proof.
  intros r res. subst res. unfold startVotingRound, onlyAdmin. fold r.
  rewrite require_all_active_spec.
  split; [|split; [|split; [|split; [|split]]]];
    [| | | | |intros Hreach id; by apply reachable_active_registered].
  - intros Hne. rewrite bool_decide_eq_false_2 by done. done.
  - intros -> Hact. rewrite bool_decide_eq_true_2 by done. rewrite Hact. done.
  - intros -> Hact ->. rewrite bool_decide_eq_true_2 by done. rewrite Hact. done.
  - intros -> Hact Hne (id & Hin & Hid).
    rewrite bool_decide_eq_true_2 by done. rewrite Hact.
    destruct ids as [|i ids]; [done|]. cbn -[forallb].
    assert (forallb (fun id => isActive (project s id)) (i :: ids) = false) as ->; [|done].
    apply not_true_is_false. intros Hall. rewrite forallb_forall in Hall.
    rewrite (Hall id) in Hid; [discriminate|]. by apply list_elem_of_In.
  - intros -> Hact Hne Hall.
    rewrite bool_decide_eq_true_2 by done. rewrite Hact.
    destruct ids as [|i ids]; [done|]. cbn -[forallb].
    assert (forallb (fun id => isActive (project s id)) (i :: ids) = true) as ->.
    { apply forallb_forall. intros id Hin. apply Hall. by apply list_elem_of_In. }
    cbn. eexists. split; [reflexivity|]. cbn.
    split; [unfold round; cbn; by rewrite lookup_insert_eq|].
    split; [intros r' Hr'; unfold round; cbn; by rewrite lookup_insert_ne|].
    repeat split.
Qed.

Lemma startVotingRound_checks_witness :
  let s0 := run (take 4 open_round) (constructor deployer) in
  startVotingRound [1; 2] alice 14 s0 = Revert NotAuthorized /\
  startVotingRound [] deployer 14 s0 = Revert NoProjectsSelected /\
  startVotingRound [1; 3] deployer 14 s0 = Revert ProjectNotActive /\
  exists s', startVotingRound [1; 2] deployer 14 s0 = OK s' /\
             projectIds (round s' 1) = [1; 2] /\
             startVotingRound [1] deployer 15 s' = Revert VotingAlreadyActive.
Proof.
  cbv zeta.
  set (s0 := run (take 4 open_round) (constructor deployer)).
  assert (currentVotingRound s0 = 1) as Hr by (vm_compute; reflexivity).
  assert (admin s0 = deployer) as Ha by (vm_compute; reflexivity).
  assert (votingActive (round s0 1) = false) as Hv by (vm_compute; reflexivity).
  split; [|split; [|split]].
  - destruct (startVotingRound_checks s0 [1; 2] alice 14) as (H & _).
    apply H. rewrite Ha. discriminate.
  - destruct (startVotingRound_checks s0 [] deployer 14) as (_ & _ & H & _).
    rewrite Hr in H. apply H; done.
  - destruct (startVotingRound_checks s0 [1; 3] deployer 14) as (_ & _ & _ & H & _).
    rewrite Hr in H. apply H; try done.
    exists 3. split; [|vm_compute; reflexivity].
    apply elem_of_cons. right. apply elem_of_cons. by left.
  - destruct (startVotingRound_checks s0 [1; 2] deployer 14) as (_ & _ & _ & _ & H & _).
    rewrite Hr in H. destruct H as (s' & Hs' & Hround & _ & Hcur & _ & _ & _ & _ & Hadm & _);
      try done.
    { intros id Hin. apply elem_of_cons in Hin as [->|Hin]; [vm_compute; reflexivity|].
      apply elem_of_cons in Hin as [->|Hin]; [vm_compute; reflexivity|].
      by apply elem_of_nil in Hin. }
    exists s'. split; [exact Hs'|]. split; [by rewrite Hround|].
    destruct (startVotingRound_checks s' [1] deployer 15) as (_ & H & _).
    rewrite Hcur, Hround, Hadm, Ha in H. apply H; done.
Defined.

(** ** Closing a round nobody voted in *)

(** C8 (as amended). When the administrator calls [endVotingRound] on an open
    round of a reachable storage whose voter list is empty, and the round
    counter is below 255, no decryption is requested and the same call
    finalizes the round: it is no longer active, its end time is the time of
    the call, it is revealed with winner 0 and score 0, and the counter moves
    to the next round, which is idle. At counter 255 the call reverts with
    the arithmetic panic instead. *)
Theorem endVotingRound_no_voters s caller time :
  reachable s ->
  caller = admin s ->
  let r := currentVotingRound s in
  votingActive (round s r) = true ->
  voters (round s r) = [] ->
  if r <? 255
  then exists s',
         endVotingRound caller time s = OK s' /\
         decryptionRequests s' = decryptionRequests s /\
         votingActive (round s' r) = false /\
         endTime (round s' r) = time /\
         resultsRevealed (round s' r) = true /\
         winningProjectId (round s' r) = 0 /\
         maxScore (round s' r) = 0 /\
         currentVotingRound s' = r + 1 /\
         round s' (r + 1) = zeroRound
  else endVotingRound caller time s = Revert ArithmeticPanic.
Proof.
  intros Hreach -> r Hact Hnov.
  pose proof (Inv_reachable s Hreach) as [_ _ _ _ _ Hfu Hu]. fold r in Hfu, Hu.
  unfold endVotingRound, onlyAdmin. fold r.
  rewrite bool_decide_eq_true_2 by done. rewrite Hact, Hu. simpl.
  set (s1 := update_round r _ s).
  assert (currentVotingRound s1 = r) as Hc1 by done.
  assert (round s1 r = {| projectIds := projectIds (round s r); votingActive := false;
            resultsRevealed := resultsRevealed (round s r);
            startTime := startTime (round s r); endTime := time;
            voters := voters (round s r);
            winningProjectId := winningProjectId (round s r);
            maxScore := maxScore (round s r) |}) as Hr1
    by (subst s1; by rewrite round_update_round_eq).
  unfold _requestResultsDecryption. rewrite Hc1, count_votes_total, Hr1. simpl.
  rewrite Hnov, total_ballots_no_voters. simpl.
  pose proof (finalize_spec 0 0 s1) as Hf. cbv zeta in Hf. rewrite Hc1 in Hf.
  destruct (r <? 255); [|done].
  destruct Hf as (s' & Hs' & Hcur & Hrev & Hw & Hm & Hva & Het & Hoth & _ & _ & _ & _ & _ & Hdr & _).
  exists s'. rewrite Hr1 in Hva, Het. simpl in Hva, Het.
  repeat split; try done.
  rewrite Hoth by lia. subst s1. rewrite round_update_round_ne by lia. apply Hfu. lia.
Qed.

Lemma endVotingRound_no_voters_witness :
  let s0 := run open_round (constructor deployer) in
  exists s',
    endVotingRound deployer 17 s0 = OK s' /\
    decryptionRequests s' = [] /\
    resultsRevealed (round s' 1) = true /\
    winningProjectId (round s' 1) = 0 /\
    currentVotingRound s' = 2.
Proof.
  cbv zeta.
  set (s0 := run open_round (constructor deployer)).
  assert (currentVotingRound s0 = 1) as Hr by (vm_compute; reflexivity).
  pose proof (endVotingRound_no_voters s0 deployer 17) as H. cbv zeta in H.
  rewrite Hr in H. change (1 <? 255) with true in H. cbv iota in H.
  destruct H as (s' & H1 & H2 & _ & _ & H3 & H4 & _ & H5 & _).
  - apply reachable_run, reachable_init.
  - vm_compute. reflexivity.
  - vm_compute. reflexivity.
  - vm_compute. reflexivity.
  - exists s'. rewrite H2. repeat split; assumption.
Defined.

(** C8, the claim as worded fails in round 255: the round is open and nobody
    voted, yet closing it reverts, since the counter cannot be incremented;
    the round stays open. *)
Lemma endVotingRound_last_round_reverts :
  let s0 := run last_round (constructor deployer) in
  reachable s0 /\
  currentVotingRound s0 = 255 /\
  votingActive (round s0 255) = true /\
  voters (round s0 255) = [] /\
  endVotingRound deployer 23 s0 = Revert ArithmeticPanic /\
  votingActive (round (apply_tx s0 (tx EndVotingRound deployer 23)) 255) = true.
Proof.
  cbv zeta. split; [apply reachable_run, reachable_init|].
  split; [|split; [|split; [|split]]]; vm_compute; reflexivity.
Qed.

(** ** Entry ids *)

(** C9. After any sequence of calls on a fresh contract, the ids assigned so
    far, in the order of the [ProjectProposed] events, are 1, 2, ..., up to
    [totalProjects]: strictly increasing from 1 and without repetition. A
    further [proposeProject] at a counter below 255 assigns the next id, one
    that no entry holds yet; at 255 it reverts, so the counter never wraps.
    No later call rewrites a registered entry. *)
Theorem proposeProject_ids_sequential d txs :
  let s := run txs (constructor d) in
  let ids := proposed_ids (events s) in
  ids = Z.of_nat <$> seq 1 (Z.to_nat (totalProjects s)) /\
  StronglySorted Z.lt ids /\
  NoDup ids /\
  0 <= totalProjects s <= 255 /\
  (forall n dsc c who time,
     let res := proposeProject n dsc c who time s in
     if totalProjects s <? 255
     then exists s',
            res = OK s' /\
            totalProjects s' = totalProjects s + 1 /\
            proposed_ids (events s') = ids ++ [totalProjects s + 1] /\
            projects s !! (totalProjects s + 1) = None /\
            project s' (totalProjects s + 1) =
              {| name := n; description := dsc; category := c; proposer := who;
                 isActive := true; proposalTime := time |}
     else res = Revert ArithmeticPanic) /\
  (forall txs' id, 1 <= id <= totalProjects s ->
     projects (run txs' s) !! id = projects s !! id).
Proof.
  intros s ids.
  assert (Inv s) as [Ht _ _ Hf Hi _ _]
    by (apply Inv_reachable, reachable_run, reachable_init).
  fold ids in Hi.
  split; [exact Hi|]. split; [rewrite Hi; apply seq_Z_sorted|].
  split; [rewrite Hi; apply NoDup_fmap_2; [apply _ | apply NoDup_seq]|].
  split; [exact Ht|]. split.
  - intros n dsc c who time res. subst res. unfold proposeProject.
    destruct (totalProjects s <? 255) eqn:Hlt.
    + apply Z.ltb_lt in Hlt. rewrite checked_add8_fits by lia. simpl.
      eexists. split; [reflexivity|]. simpl.
      split; [done|]. split; [by rewrite proposed_ids_app|].
      split; [apply Hf; lia|].
      unfold project. simpl. by rewrite lookup_insert_eq.
    + apply Z.ltb_ge in Hlt. by rewrite checked_add8_overflow by lia.
  - intros txs' id Hid. by apply run_keeps_project.
Qed.

Lemma proposeProject_ids_sequential_witness :
  let s0 := run closed_round (constructor deployer) in
  proposed_ids (events s0) = [1; 2] /\
  exists s',
    proposeProject "Project C" "Description C" "Category C" carol 30 s0 = OK s' /\
    proposed_ids (events s') = [1; 2; 3] /\
    projects s0 !! 3 = None.
Proof.
  cbv zeta.
  destruct (proposeProject_ids_sequential deployer closed_round)
    as (Hids & _ & _ & _ & Hnext & _).
  assert (totalProjects (run closed_round (constructor deployer)) = 2) as Htp
    by (vm_compute; reflexivity).
  rewrite Htp in Hids, Hnext. change (Z.of_nat <$> seq 1 (Z.to_nat 2)) with [1; 2] in Hids.
  split; [exact Hids|].
  specialize (Hnext "Project C" "Description C" "Category C" carol 30).
  cbv zeta in Hnext. change (2 <? 255) with true in Hnext. cbv iota in Hnext.
  destruct Hnext as (s' & H1 & _ & H2 & H3 & _).
  exists s'. rewrite Hids in H2. repeat split; assumption.
Defined.

(** ** Deactivating an entry *)

(** C10 (as amended). The contract offers no deactivation. Whatever the
    call, its caller (the administrator included) and the storage, a call
    never clears the active flag of an entry and never changes or removes a
    registered entry, whether it succeeds or reverts; the same holds for any
    sequence of calls. In a reachable storage the active entries are
    exactly the registered ones, 1 to [totalProjects]. *)
Theorem active_flag_never_cleared s id :
  (forall t,
     (isActive (project s id) = true ->
      isActive (project (apply_tx s t) id) = true) /\
     (1 <= id <= totalProjects s -> project (apply_tx s t) id = project s id)) /\
  (forall txs,
     (isActive (project s id) = true ->
      isActive (project (run txs s) id) = true) /\
     (1 <= id <= totalProjects s -> project (run txs s) id = project s id)) /\
  (reachable s ->
     (isActive (project s id) = true <-> 1 <= id <= totalProjects s)).
Proof.
  split; [|split].
  - intros t. split; [apply apply_tx_keeps_active|].
    intros Hid. unfold project.
    change (apply_tx s t) with (run [t] s). by rewrite run_keeps_project.
  - intros txs. split; [apply run_keeps_active|].
    intros Hid. unfold project. by rewrite run_keeps_project.
  - apply reachable_active_registered.
Qed.

Lemma active_flag_never_cleared_witness :
  let s0 := run open_round (constructor deployer) in
  isActive (project s0 1) = true /\
  isActive (project (run [tx EndVotingRound deployer 20;
                          tx (RevokeVoter alice) deployer 21] s0) 1) = true /\
  project (apply_tx s0 (tx (ProposeProject "Project C" "Description C" "Category C")
                           deployer 20)) 1
    = project s0 1.
Proof.
  cbv zeta.
  set (s0 := run open_round (constructor deployer)).
  assert (isActive (project s0 1) = true) as Hact by (vm_compute; reflexivity).
  destruct (active_flag_never_cleared s0 1) as (Hone & Hrun & _).
  split; [exact Hact|]. split.
  - apply (Hrun [tx EndVotingRound deployer 20; tx (RevokeVoter alice) deployer 21]).
    exact Hact.
  - apply (Hone (tx (ProposeProject "Project C" "Description C" "Category C")
                   deployer 20)).
    vm_compute. split; discriminate.
Defined.

(** C10, the claim as worded fails: with two registered, active entries and
    the deployer as administrator, no call that the administrator can make,
    at any time, clears the active flag of entry 1: the contract has no
    operation that deactivates. *)
Lemma deactivate_not_offered :
  let s0 := run open_round (constructor deployer) in
  admin s0 = deployer /\
  totalProjects s0 = 2 /\
  isActive (project s0 1) = true /\
  forall c time, isActive (project (apply_tx s0 (tx c deployer time)) 1) = true.
Proof.
  cbv zeta. split; [vm_compute; reflexivity|]. split; [vm_compute; reflexivity|].
  split; [vm_compute; reflexivity|].
  intros c time. apply apply_tx_keeps_active. vm_compute. reflexivity.
Qed.

(** * Further properties of the contract *)

(** ** The administrator and the voter list *)

Lemma exec_admin t s s' : exec t s = OK s' -> admin s' = admin s.
Proof. intros H. exec_cases H; congruence. Qed.

(** X1. No sequence of calls changes the administrator: it is the deployer
    for ever, and the deployer starts out as an authorized voter. *)
Theorem admin_is_deployer_forever d txs :
  admin (run txs (constructor d)) = d /\
  isAuthorizedVoter (constructor d) d = true /\
  forall s, admin (run txs s) = admin s.
Proof.
  assert (forall l s, admin (run l s) = admin s) as Hrun.
  { induction l as [|t l IH]; intros s; simpl; [done|].
    rewrite IH. unfold apply_tx. destruct (exec t s) as [s'|e] eqn:E; [|done].
    by apply (exec_admin t). }
  split; [by rewrite Hrun|]. split; [|by apply Hrun].
  unfold isAuthorizedVoter, authorized. simpl. by rewrite lookup_singleton_eq.
Qed.

(** X2. [authorizeVoter] and [revokeVoter] are refused to anyone but the
    administrator. For the administrator they always succeed: the address is
    authorized (resp. not authorized) afterwards, whatever it was before, no
    other address changes, and the event is emitted every time; the last of
    two such calls on the same address decides. *)
Theorem authorizeVoter_revokeVoter_spec s v caller :
  (caller <> admin s ->
     authorizeVoter v caller s = Revert NotAuthorized /\
     revokeVoter v caller s = Revert NotAuthorized) /\
  (caller = admin s ->
     exists sa sr,
       authorizeVoter v caller s = OK sa /\ revokeVoter v caller s = OK sr /\
       isAuthorizedVoter sa v = true /\ isAuthorizedVoter sr v = false /\
       (forall u, u <> v ->
          isAuthorizedVoter sa u = isAuthorizedVoter s u /\
          isAuthorizedVoter sr u = isAuthorizedVoter s u) /\
       events sa = events s ++ [VoterAuthorized v] /\
       events sr = events s ++ [VoterRevoked v] /\
       (exists s2, revokeVoter v caller sa = OK s2 /\
                   forall u, isAuthorizedVoter s2 u = isAuthorizedVoter sr u) /\
       (exists s2, authorizeVoter v caller sr = OK s2 /\
                   forall u, isAuthorizedVoter s2 u = isAuthorizedVoter sa u) /\
       (exists s2, authorizeVoter v caller sa = OK s2 /\
                   authorizedVoters s2 = authorizedVoters sa)).
Proof.
  unfold authorizeVoter, revokeVoter, onlyAdmin, isAuthorizedVoter, authorized.
  split.
  - intros Hne. by rewrite bool_decide_eq_false_2.
  - intros ->. rewrite bool_decide_eq_true_2 by done. simpl.
    eexists. eexists. split; [reflexivity|]. split; [reflexivity|]. simpl.
    rewrite !lookup_insert_eq. split; [done|]. split; [done|]. split.
    { intros u Hu. by rewrite !lookup_insert_ne. }
    split; [done|]. split; [done|].
    rewrite !bool_decide_eq_true_2 by done. simpl.
    split; [|split].
    + eexists. split; [reflexivity|]. intros u. simpl.
      destruct (decide (v = u)) as [->|Hne].
      * by rewrite !lookup_insert_eq.
      * by rewrite !lookup_insert_ne.
    + eexists. split; [reflexivity|]. intros u. simpl.
      destruct (decide (v = u)) as [->|Hne].
      * by rewrite !lookup_insert_eq.
      * by rewrite !lookup_insert_ne.
    + eexists. split; [reflexivity|]. simpl. apply insert_insert_eq.
Qed.

Lemma authorizeVoter_revokeVoter_spec_witness :
  let s0 := run open_round (constructor deployer) in
  authorizeVoter carol alice s0 = Revert NotAuthorized /\
  exists sa sr,
    authorizeVoter carol deployer s0 = OK sa /\ revokeVoter alice deployer s0 = OK sr /\
    isAuthorizedVoter s0 carol = false /\ isAuthorizedVoter sa carol = true /\
    isAuthorizedVoter s0 alice = true /\ isAuthorizedVoter sr alice = false.
Proof.
  cbv zeta. set (s0 := run open_round (constructor deployer)).
  assert (admin s0 = deployer) as Ha by (vm_compute; reflexivity).
  split.
  - destruct (authorizeVoter_revokeVoter_spec s0 carol alice) as ([H _] & _); [|exact H].
    rewrite Ha. discriminate.
  - destruct (authorizeVoter_revokeVoter_spec s0 carol deployer) as (_ & H1); [].
    destruct H1 as (sa & _ & Hsa & _ & Hca & _); [by rewrite Ha|].
    destruct (authorizeVoter_revokeVoter_spec s0 alice deployer) as (_ & H2).
    destruct H2 as (_ & sr & _ & Hsr & _ & Har & _); [by rewrite Ha|].
    exists sa, sr. split; [exact Hsa|]. split; [exact Hsr|].
    split; [vm_compute; reflexivity|]. split; [exact Hca|].
    split; [vm_compute; reflexivity | exact Har].
Defined.

(** X3. A call by anyone but the administrator, whether it succeeds or
    reverts, changes neither the authorization of any address nor the
    [votingActive] flag of any round. *)
Theorem only_admin_authorizes_and_toggles s t :
  sender t <> admin s ->
  (forall u, isAuthorizedVoter (apply_tx s t) u = isAuthorizedVoter s u) /\
  (forall r, votingActive (round (apply_tx s t) r) = votingActive (round s r)).
Proof.
  intros Hne. unfold apply_tx. destruct (exec t s) as [s'|e] eqn:H; [|done].
  unfold isAuthorizedVoter, authorized.
  pose proof H as H0. unfold exec in H0. destruct (call t) eqn:Hcall.
  - apply proposeProject_OK in H0. destruct_and?. split.
    + intros u. congruence.
    + intros r. rewrite (round_ext s s'); [done | congruence].
  - apply authorizeVoter_OK in H0 as [? _]. done.
  - apply revokeVoter_OK in H0 as [? _]. done.
  - apply startVotingRound_OK in H0 as [? _]. done.
  - pose proof (submitVote_round _ _ _ _ _ _ H0) as Hrd. cbv zeta in Hrd.
    apply submitVote_OK in H0. destruct_and?. split.
    + intros u. congruence.
    + intros r. destruct (decide (r = currentVotingRound s)) as [->|Hr].
      * by rewrite Hrd.
      * rewrite (round_ext s s'); [done|].
        match goal with Ho : forall r, _ -> votingRounds s' !! r = _ |- _ => by apply Ho end.
  - apply endVotingRound_OK in H0. cbv zeta in H0. destruct H0 as [? _]. done.
  - apply processResults_OK in H0 as (w & _ & H0). apply finalize_OK in H0.
    cbv zeta in H0. destruct_and?. split.
    + intros u. congruence.
    + intros r. destruct (decide (r = currentVotingRound s)) as [->|Hr]; [done|].
      match goal with Ho : forall r, _ -> round s' r = _ |- _ => by rewrite Ho end.
Qed.

Lemma only_admin_authorizes_and_toggles_witness :
  let s0 := run open_round (constructor deployer) in
  isAuthorizedVoter (apply_tx s0 (tx (AuthorizeVoter carol) alice 20)) carol
    = isAuthorizedVoter s0 carol /\
  votingActive (round (apply_tx s0 (tx EndVotingRound bob 20)) 1)
    = votingActive (round s0 1).
Proof.
  cbv zeta. set (s0 := run open_round (constructor deployer)).
  assert (admin s0 = deployer) as Ha by (vm_compute; reflexivity).
  split.
  - apply (only_admin_authorizes_and_toggles s0 (tx (AuthorizeVoter carol) alice 20)).
    simpl. rewrite Ha. discriminate.
  - apply (only_admin_authorizes_and_toggles s0 (tx EndVotingRound bob 20)).
    simpl. rewrite Ha. discriminate.
Defined.

(** ** Accepted votes *)

(** X4. [submitVote] succeeds exactly when the caller is authorized, the
    current round is active, the score is between 1 and 10, the entry is in
    the round and the caller has not voted for it yet. The score range is
    checked before the entry, and the entry before the duplicate. On success
    the vote holds the encrypted score and the time, no other vote changes,
    the caller is appended to the voter list unless already listed, and
    [VoteSubmitted] is emitted. *)
Theorem submitVote_checks s pid score caller time :
  let r := currentVotingRound s in
  let rd := round s r in
  let res := submitVote pid score caller time s in
  ((exists s', res = OK s') <->
     authorized s caller = true /\ votingActive rd = true /\ 1 <= score <= 10 /\
     pid ∈ projectIds rd /\ hasVoted (vote s r pid caller) = false) /\
  (authorized s caller = true -> votingActive rd = true -> ~ (1 <= score <= 10) ->
     res = Revert ScoreOutOfRange) /\
  (authorized s caller = true -> votingActive rd = true -> 1 <= score <= 10 ->
     pid ∉ projectIds rd -> res = Revert ProjectNotInRound) /\
  (forall s', res = OK s' ->
     getVoteStatus s' pid caller = (true, time) /\
     encryptedScore (vote s' r pid caller) = Enc score /\
     (forall r' pid' v, (r', pid', v) <> (r, pid, caller) ->
        votes s' !! (r', pid', v) = votes s !! (r', pid', v)) /\
     voters (round s' r) =
       (if decide (caller ∈ voters rd) then voters rd else voters rd ++ [caller]) /\
     projectIds (round s' r) = projectIds rd /\
     votingActive (round s' r) = true /\
     currentVotingRound s' = r /\
     events s' = events s ++ [VoteSubmitted caller r pid] /\
     decryptionRequests s' = decryptionRequests s).
Proof.
  intros r rd res.
  assert (_isProjectInCurrentRound s pid = true <-> pid ∈ projectIds rd) as Hin
    by apply isProjectInRound_elem.
  split; [split|split; [|split]].
  - intros [s' H]. apply submitVote_OK in H. destruct_and?.
    repeat split; try done; try lia. by apply Hin.
  - intros (Ha & Hact & Hsc & Hp & Hnv). apply Hin in Hp.
    subst res. unfold submitVote, onlyAuthorizedVoter, onlyDuringVoting.
    fold r rd. rewrite Ha, Hact, Hp, Hnv.
    rewrite (proj2 (Z.leb_le 1 score)), (proj2 (Z.leb_le score 10)) by lia.
    simpl. by eexists.
  - intros Ha Hact Hsc. subst res.
    unfold submitVote, onlyAuthorizedVoter, onlyDuringVoting. fold r rd.
    rewrite Ha, Hact. simpl.
    destruct ((1 <=? score) && (score <=? 10)) eqn:E; [|done].
    apply andb_true_iff in E as [?%Z.leb_le ?%Z.leb_le]. lia.
  - intros Ha Hact Hsc Hp. subst res.
    unfold submitVote, onlyAuthorizedVoter, onlyDuringVoting. fold r rd.
    rewrite Ha, Hact.
    rewrite (proj2 (Z.leb_le 1 score)), (proj2 (Z.leb_le score 10)) by lia. simpl.
    destruct (_isProjectInCurrentRound s pid) eqn:E; [|done].
    exfalso. apply Hp. by apply Hin.
  - intros s' H. subst res.
    pose proof (submitVote_round _ _ _ _ _ _ H) as Hrd. cbv zeta in Hrd. fold r rd in Hrd.
    apply submitVote_OK in H. fold r rd in H.
    destruct H as (_ & Hact & _ & _ & _ & Hvotes & Hev & _ & _ & _ & Hcur & _ & Hdr & _).
    unfold getVoteStatus, vote. rewrite Hcur, Hvotes, lookup_insert_eq. simpl.
    split; [done|]. split; [done|]. split.
    { intros r' pid' v Hne. by rewrite lookup_insert_ne. }
    rewrite Hrd. simpl. repeat split; try done.
    destruct (_isVoterInRound (voters rd) caller) eqn:E.
    + apply isVoterInRound_elem in E. by rewrite decide_True.
    + rewrite decide_False; [done|]. intros Hx. apply isVoterInRound_elem in Hx. congruence.
Qed.

Lemma submitVote_checks_witness :
  let s0 := run open_round (constructor deployer) in
  submitVote 1 11 alice 15 s0 = Revert ScoreOutOfRange /\
  submitVote 3 11 alice 15 s0 = Revert ScoreOutOfRange /\
  submitVote 3 5 alice 15 s0 = Revert ProjectNotInRound /\
  exists s', submitVote 1 8 alice 15 s0 = OK s' /\
             getVoteStatus s' 1 alice = (true, 15) /\
             voters (round s' 1) = [alice].
Proof.
  cbv zeta. set (s0 := run open_round (constructor deployer)).
  assert (currentVotingRound s0 = 1) as Hr by (vm_compute; reflexivity).
  assert (authorized s0 alice = true) as Ha by (vm_compute; reflexivity).
  assert (votingActive (round s0 1) = true) as Hv by (vm_compute; reflexivity).
  assert (projectIds (round s0 1) = [1; 2]) as Hp by (vm_compute; reflexivity).
  assert (voters (round s0 1) = []) as Hvs by (vm_compute; reflexivity).
  split; [|split; [|split]].
  - destruct (submitVote_checks s0 1 11 alice 15) as (_ & H & _).
    rewrite Hr in H. apply H; [done | done | lia].
  - destruct (submitVote_checks s0 3 11 alice 15) as (_ & H & _).
    rewrite Hr in H. apply H; [done | done | lia].
  - destruct (submitVote_checks s0 3 5 alice 15) as (_ & _ & H & _).
    rewrite Hr, Hp in H. apply H; [done | done | lia |].
    intros Hin. repeat (apply elem_of_cons in Hin as [Hin|Hin]; [discriminate|]).
    by apply elem_of_nil in Hin.
  - destruct (submitVote_checks s0 1 8 alice 15) as ([_ H] & _ & _ & Heff).
    rewrite Hr, Hp in H. destruct H as [s' Hs'].
    { split; [exact Ha|]. split; [exact Hv|]. split; [lia|].
      split; [apply elem_of_cons; by left|]. vm_compute. reflexivity. }
    exists s'. split; [exact Hs'|].
    destruct (Heff s' Hs') as (H1 & _ & _ & H2 & _).
    split; [exact H1|]. rewrite Hr, Hvs in H2. rewrite H2.
    rewrite decide_False; [done|]. by intros ?%elem_of_nil.
Defined.

(** X5. In a reachable storage an accepted vote raises the vote count of its
    entry by exactly one. The count of another entry is unchanged when the
    caller was already listed as a voter of the round, or holds no vote for
    that entry. *)
Theorem submitVote_counts s pid score caller time s' :
  reachable s ->
  submitVote pid score caller time s = OK s' ->
  getProjectVoteCount s' pid = getProjectVoteCount s pid + 1 /\
  hasUserVotedForProject s pid caller = false /\
  hasUserVotedForProject s' pid caller = true /\
  (forall pid', pid' <> pid ->
     caller ∈ voters (round s (currentVotingRound s)) \/
       hasUserVotedForProject s pid' caller = false ->
     getProjectVoteCount s' pid' = getProjectVoteCount s pid').
Proof.
  intros Hreach H.
  pose proof (led_nodup s (Ledger_reachable s Hreach) (currentVotingRound s)) as Hnd.
  pose proof (submitVote_round _ _ _ _ _ _ H) as Hrd. cbv zeta in Hrd.
  apply submitVote_OK in H.
  destruct H as (_ & _ & _ & _ & Hnv & Hvotes & _ & _ & _ & _ & Hcur & _).
  set (c := currentVotingRound s) in *. set (vs := voters (round s c)) in *.
  assert (voted_in s' c pid caller = true) as Hnew
    by (unfold voted_in, vote; by rewrite Hvotes, lookup_insert_eq).
  assert (forall p v, (p, v) <> (pid, caller) -> voted_in s' c p v = voted_in s c p v)
    as Hsame.
  { intros p v Hne. unfold voted_in, vote. rewrite Hvotes, lookup_insert_ne; [done|].
    intros [= <- <-]. done. }
  assert (voters (round s' c) = if _isVoterInRound vs caller then vs else vs ++ [caller])
    as Hvs by (by rewrite Hrd).
  unfold hasUserVotedForProject. rewrite !getProjectVoteCount_ballots, Hcur. fold c vs.
  rewrite Hvs. split; [|split; [exact Hnv|split; [exact Hnew|]]].
  - destruct (_isVoterInRound vs caller) eqn:E.
    + apply isVoterInRound_elem in E.
      rewrite (ballots_flip (voted_in s c pid) (voted_in s' c pid) vs caller); try done.
      * lia.
      * intros v Hv. apply Hsame. intros [= ->]. done.
    + assert (caller ∉ vs) as Hout
        by (intros Hx; apply isVoterInRound_elem in Hx; congruence).
      rewrite ballots_snoc, Hnew.
      rewrite (ballots_ext (voted_in s' c pid) (voted_in s c pid) vs); [lia|].
      intros v Hv. apply Hsame. intros [= ->]. done.
  - intros pid' Hne Hcase. rewrite !getProjectVoteCount_ballots, Hcur. fold c vs.
    rewrite Hvs.
    assert (forall v, voted_in s' c pid' v = voted_in s c pid' v) as Hf
      by (intros v; apply Hsame; intros [= -> _]; done).
    assert (forall l, ballots (voted_in s' c pid') l = ballots (voted_in s c pid') l)
      as Hb by (intros l; apply ballots_ext; intros v _; apply Hf).
    destruct (_isVoterInRound vs caller) eqn:E.
    + by rewrite Hb.
    + destruct Hcase as [Hin|Hno].
      { apply isVoterInRound_elem in Hin. congruence. }
      rewrite ballots_snoc, Hf, Hb. fold (voted_in s c pid' caller) in Hno. rewrite Hno.
      by rewrite Nat.add_0_r.
Qed.

Lemma submitVote_counts_witness :
  let s0 := run (open_round ++ [tx (SubmitVote 1 8) alice 15]) (constructor deployer) in
  exists s',
    submitVote 1 9 bob 16 s0 = OK s' /\
    getProjectVoteCount s0 1 = 1 /\
    getProjectVoteCount s' 1 = 2 /\
    getProjectVoteCount s' 2 = getProjectVoteCount s0 2.
Proof.
  cbv zeta.
  set (s0 := run (open_round ++ [tx (SubmitVote 1 8) alice 15]) (constructor deployer)).
  set (s' := apply_tx s0 (tx (SubmitVote 1 9) bob 16)).
  assert (submitVote 1 9 bob 16 s0 = OK s') as H by (vm_compute; reflexivity).
  assert (getProjectVoteCount s0 1 = 1) as H0 by (vm_compute; reflexivity).
  destruct (submitVote_counts s0 1 9 bob 16 s') as (H1 & _ & _ & H2);
    [apply reachable_run, reachable_init | exact H |].
  exists s'. split; [exact H|]. split; [exact H0|]. split; [by rewrite H1, H0|].
  apply H2; [discriminate|]. right. vm_compute. reflexivity.
Defined.

Lemma voted_stored s r pid v :
  Ledger s -> voted_in s r pid v = true ->
  exists sc, encryptedScore (vote s r pid v) = Enc sc /\ 1 <= sc <= 10.
Proof.
  intros HL Hv. unfold voted_in, vote in *.
  destruct (votes s !! (r, pid, v)) as [x|] eqn:E; [|discriminate].
  destruct (led_votes s HL _ _ _ _ E) as (_ & Hsc & _). exact Hsc.
Qed.

(** X6. The voter list of a round is a set in insertion order: in a reachable
    storage it has no duplicates and every listed voter has voted for an
    entry of that round; adding a voter a second time changes nothing; and no
    entry has more votes counted than there are listed voters. *)
Theorem voters_listed_once s r :
  reachable s ->
  NoDup (voters (round s r)) /\
  (forall v, v ∈ voters (round s r) ->
     exists pid, pid ∈ projectIds (round s r) /\ hasVoted (vote s r pid v) = true) /\
  (forall v, _addVoterToRound v (_addVoterToRound v s) = _addVoterToRound v s) /\
  (forall pid,
     0 <= getProjectVoteCount s pid
       <= Z.of_nat (length (voters (round s (currentVotingRound s))))).
Proof.
  intros Hreach. pose proof (Ledger_reachable s Hreach) as HL.
  split; [apply (led_nodup s HL)|]. split; [apply (led_voters s HL)|]. split.
  - intros v. unfold _addVoterToRound at 2 3.
    destruct (_isVoterInRound _ v) eqn:E.
    + unfold _addVoterToRound. by rewrite E.
    + unfold _addVoterToRound.
      change (currentVotingRound (update_round ?a ?f s)) with (currentVotingRound s).
      rewrite round_update_round_eq. simpl.
      assert (_isVoterInRound (voters (round s (currentVotingRound s)) ++ [v]) v = true)
        as -> ; [|done].
      apply isVoterInRound_elem, elem_of_app. right. by apply list_elem_of_singleton.
  - intros pid. rewrite getProjectVoteCount_ballots.
    pose proof (ballots_le (voted_in s (currentVotingRound s) pid)
                  (voters (round s (currentVotingRound s)))). lia.
Qed.

Lemma voters_listed_once_witness :
  let s0 := run two_votes_one_entry (constructor deployer) in
  voters (round s0 1) = [alice; bob] /\ NoDup (voters (round s0 1)) /\
  getProjectVoteCount s0 1 <= 2.
Proof.
  cbv zeta.
  destruct (voters_listed_once (run two_votes_one_entry (constructor deployer)) 1)
    as (H1 & _ & _ & H2); [apply reachable_run, reachable_init|].
  split; [vm_compute; reflexivity|]. split; [exact H1|].
  specialize (H2 1).
  assert (currentVotingRound (run two_votes_one_entry (constructor deployer)) = 1) as Hr
    by (vm_compute; reflexivity).
  assert (voters (round (run two_votes_one_entry (constructor deployer)) 1) = [alice; bob])
    as Hv by (vm_compute; reflexivity).
  rewrite Hr, Hv in H2. change (Z.of_nat (length [alice; bob])) with 2 in H2.
  exact (proj2 H2).
Defined.

(** X7. Every vote stored in a reachable storage was accepted by
    [submitVote]: it is marked as cast, holds a score between 1 and 10, and
    belongs to a round from 1 to the current one and to a registered entry. A
    slot that reads as "voted" is such a stored vote. *)
Theorem stored_votes_wellformed s r pid v :
  reachable s ->
  (forall x, votes s !! (r, pid, v) = Some x ->
     hasVoted x = true /\
     (exists sc, encryptedScore x = Enc sc /\ 1 <= sc <= 10) /\
     1 <= r <= currentVotingRound s /\ 1 <= pid <= totalProjects s) /\
  (hasVoted (vote s r pid v) = true <-> is_Some (votes s !! (r, pid, v))) /\
  (hasVoted (vote s r pid v) = true -> 1 <= decrypt (encryptedScore (vote s r pid v)) <= 10).
Proof.
  intros Hreach. pose proof (Ledger_reachable s Hreach) as HL.
  split; [apply (led_votes s HL)|]. split.
  - unfold vote. destruct (votes s !! (r, pid, v)) as [x|] eqn:E; simpl.
    + destruct (led_votes s HL _ _ _ _ E) as (Hx & _). split; [by eexists | done].
    + split; [discriminate | by intros [? ?]].
  - intros Hv. destruct (voted_stored s r pid v HL Hv) as (sc & -> & Hsc). exact Hsc.
Qed.

Lemma stored_votes_wellformed_witness :
  let s0 := run closed_round (constructor deployer) in
  hasVoted (vote s0 1 2 bob) = true /\
  1 <= decrypt (encryptedScore (vote s0 1 2 bob)) <= 10.
Proof.
  cbv zeta.
  destruct (stored_votes_wellformed (run closed_round (constructor deployer)) 1 2 bob)
    as (_ & _ & H); [apply reachable_run, reachable_init|].
  assert (hasVoted (vote (run closed_round (constructor deployer)) 1 2 bob) = true) as Hv
    by (vm_compute; reflexivity).
  split; [exact Hv | exact (H Hv)].
Defined.

(** X8. The event log accounts for the storage: in a reachable storage there
    are as many stored votes as [VoteSubmitted] events, and the
    [ResultsRevealed] events carry the round numbers 1, 2, ... up to the one
    before the current round, each once and in order. *)
Theorem event_log_accounts s :
  reachable s ->
  size (votes s) = length (List.filter is_VoteSubmitted (events s)) /\
  revealed_rounds (events s)
    = Z.of_nat <$> seq 1 (Z.to_nat (currentVotingRound s - 1)) /\
  Z.of_nat (length (revealed_rounds (events s))) = currentVotingRound s - 1.
Proof.
  intros Hreach. pose proof (Ledger_reachable s Hreach) as HL.
  pose proof (inv_round s (Inv_reachable s Hreach)) as Hc.
  split; [apply (led_vote_events s HL)|]. split; [apply (led_round_events s HL)|].
  rewrite (led_round_events s HL), length_fmap, length_seq. lia.
Qed.

Lemma event_log_accounts_witness :
  let s0 := run (closed_round ++ [tx (ProcessResults 0 [8; 9] []) oracle 20])
              (constructor deployer) in
  size (votes s0) = 2%nat /\ revealed_rounds (events s0) = [1].
Proof.
  cbv zeta.
  destruct (event_log_accounts
    (run (closed_round ++ [tx (ProcessResults 0 [8; 9] []) oracle 20])
       (constructor deployer))) as (H1 & H2 & _); [apply reachable_run, reachable_init|].
  split.
  - rewrite H1. vm_compute. reflexivity.
  - rewrite H2. vm_compute. reflexivity.
Defined.

(** ** Rounds *)

(** X9. A round below the round counter is final: whatever calls follow,
    its record (entries, flags, times, voters, winner, score) and the votes
    cast in it never change, and the counter never goes back. *)
Theorem past_rounds_frozen s r txs :
  r < currentVotingRound s ->
  round (run txs s) r = round s r /\
  (forall pid v, votes (run txs s) !! (r, pid, v) = votes s !! (r, pid, v)) /\
  (forall pid v, vote (run txs s) r pid v = vote s r pid v) /\
  getRoundResults (run txs s) r = getRoundResults s r /\
  currentVotingRound s <= currentVotingRound (run txs s).
Proof.
  revert s. induction txs as [|t txs IH]; intros s Hr; simpl.
  - repeat split; try done; lia.
  - assert (round (apply_tx s t) r = round s r /\
            currentVotingRound s <= currentVotingRound (apply_tx s t) /\
            forall pid v, votes (apply_tx s t) !! (r, pid, v) = votes s !! (r, pid, v))
      as (Hrd & Hc & Hv).
    { unfold apply_tx. destruct (exec t s) as [s'|e] eqn:E.
      - by apply (exec_past t).
      - repeat split; try done; lia. }
    destruct (IH (apply_tx s t)) as (IH1 & IH2 & IH3 & IH4 & IH5); [lia|].
    split; [congruence|]. split; [intros; by rewrite IH2|].
    split; [intros; unfold vote in *; by rewrite IH2, Hv|].
    split; [|lia]. rewrite IH4. unfold getRoundResults. by rewrite Hrd.
Qed.

Lemma past_rounds_frozen_witness :
  let s0 := run (closed_round ++ [tx (ProcessResults 0 [8; 9] []) oracle 20])
              (constructor deployer) in
  getRoundResults
    (run [tx (StartVotingRound [1]) deployer 30; tx (SubmitVote 1 3) alice 31;
          tx (ProcessResults 0 [3] []) oracle 32] s0) 1
  = (true, 2, 9, 2).
Proof.
  cbv zeta.
  set (s0 := run (closed_round ++ [tx (ProcessResults 0 [8; 9] []) oracle 20])
               (constructor deployer)).
  destruct (past_rounds_frozen s0 1
    [tx (StartVotingRound [1]) deployer 30; tx (SubmitVote 1 3) alice 31;
     tx (ProcessResults 0 [3] []) oracle 32]) as (_ & _ & _ & H & _).
  - vm_compute. reflexivity.
  - rewrite H. vm_compute. reflexivity.
Defined.

(** X10. In a reachable storage the round counter lies between 1 and 255, a
    round is revealed exactly when its number is from 1 to the one before the
    counter, and a round that is not revealed reports a zero winner and a
    zero score. *)
Theorem revealed_iff_below_counter s r :
  reachable s ->
  1 <= currentVotingRound s <= 255 /\
  (resultsRevealed (round s r) = true <-> 1 <= r < currentVotingRound s) /\
  (resultsRevealed (round s r) = false ->
     exists n, getRoundResults s r = (false, 0, 0, n)).
Proof.
  intros Hreach. pose proof (Ledger_reachable s Hreach) as HL.
  pose proof (Inv_reachable s Hreach) as HI.
  pose proof (inv_round s HI) as Hc.
  assert (resultsRevealed (round s r) = true <-> 1 <= r < currentVotingRound s) as Hiff.
  { split; [|apply (led_revealed s HL)]. intros Hrev.
    destruct (decide (r < 1)) as [Hlo|Hlo].
    { rewrite (led_before s HL r Hlo) in Hrev. discriminate. }
    destruct (decide (r < currentVotingRound s)) as [|Hhi]; [lia|].
    destruct (decide (r = currentVotingRound s)) as [->|Hne].
    - rewrite (inv_unrevealed s HI) in Hrev. discriminate.
    - rewrite (inv_future s HI r) in Hrev by lia. discriminate. }
  split; [exact Hc|]. split; [exact Hiff|].
  intros Hrev. unfold getRoundResults. rewrite Hrev.
  destruct (decide (r < 1)) as [Hlo|Hlo].
  { rewrite (led_before s HL r Hlo). by eexists. }
  destruct (decide (r < currentVotingRound s)) as [Hhi|Hhi].
  { rewrite (proj2 Hiff) in Hrev by lia. discriminate. }
  destruct (led_pending s HL r) as [-> ->]; [lia|]. by eexists.
Qed.

Lemma revealed_iff_below_counter_witness :
  let s0 := run closed_round (constructor deployer) in
  resultsRevealed (round s0 1) = false /\
  exists n, getRoundResults s0 1 = (false, 0, 0, n).
Proof.
  cbv zeta.
  destruct (revealed_iff_below_counter (run closed_round (constructor deployer)) 1)
    as (_ & _ & H); [apply reachable_run, reachable_init|].
  assert (resultsRevealed (round (run closed_round (constructor deployer)) 1) = false)
    as Hr by (vm_compute; reflexivity).
  split; [exact Hr | exact (H Hr)].
Defined.

(** X11. In a reachable storage the winner recorded for a round is either 0
    with score 0, or an entry of that round with a score from 1 to 255; in
    the second case the round is revealed and the winner is a registered,
    active entry. *)
Theorem winner_is_round_entry s r :
  reachable s ->
  (winningProjectId (round s r) = 0 /\ maxScore (round s r) = 0) \/
  (winningProjectId (round s r) ∈ projectIds (round s r) /\
   0 < maxScore (round s r) <= 255 /\
   resultsRevealed (round s r) = true /\
   1 <= winningProjectId (round s r) <= totalProjects s /\
   isActive (project s (winningProjectId (round s r))) = true).
Proof.
  intros Hreach. pose proof (Ledger_reachable s Hreach) as HL.
  pose proof (Inv_reachable s Hreach) as HI.
  destruct (led_winner s HL r) as [H0|[Hin Hm]]; [by left|]. right.
  pose proof (led_entries s HL r _ Hin) as Hreg.
  split; [done|]. split; [done|]. split; [|split; [done | by apply (inv_active s HI)]].
  apply (led_revealed s HL).
  destruct (decide (r < 1)) as [Hlo|Hlo].
  { rewrite (led_before s HL r Hlo) in Hm. simpl in Hm. lia. }
  destruct (decide (r < currentVotingRound s)) as [|Hhi]; [lia|].
  destruct (led_pending s HL r) as [_ Hz]; [lia|]. lia.
Qed.

Lemma winner_is_round_entry_witness :
  let s0 := run (closed_round ++ [tx (ProcessResults 0 [8; 9] []) oracle 20])
              (constructor deployer) in
  winningProjectId (round s0 1) = 2 /\
  winningProjectId (round s0 1) ∈ projectIds (round s0 1).
Proof.
  cbv zeta.
  set (s0 := run (closed_round ++ [tx (ProcessResults 0 [8; 9] []) oracle 20])
               (constructor deployer)).
  assert (winningProjectId (round s0 1) = 2) as Hw by (vm_compute; reflexivity).
  split; [exact Hw|].
  destruct (winner_is_round_entry s0 1) as [[H _]|[H _]];
    [apply reachable_run, reachable_init | | exact H].
  rewrite Hw in H. discriminate.
Defined.

(** X12. Once registered, an entry reads the same for ever: after a
    successful [proposeProject] on a reachable storage, [getProjectInfo] of
    the new id returns the given name, description and category, the
    proposer, the time of the call and the active flag set, whatever calls
    follow. *)
Theorem getProjectInfo_after_propose s n d c who time s' txs :
  reachable s ->
  proposeProject n d c who time s = OK s' ->
  getProjectInfo (run txs s') (totalProjects s + 1) = (n, d, c, who, true, time) /\
  getProjectInfo s (totalProjects s + 1) = ("", "", "", 0%N, false, 0).
Proof.
  intros Hreach H. pose proof (Inv_reachable s Hreach) as HI.
  apply proposeProject_OK in H as (_ & Htp & Hp & _).
  unfold getProjectInfo, project. split.
  - rewrite run_keeps_project by (pose proof (inv_total s HI); lia).
    by rewrite Hp, lookup_insert_eq.
  - rewrite (inv_fresh s HI) by lia. done.
Qed.

Lemma getProjectInfo_after_propose_witness :
  let s0 := constructor deployer in
  exists s',
    proposeProject "Music Festival" "Annual music and arts festival" "Music Performance"
      carol 5 s0 = OK s' /\
    getProjectInfo (run closed_round s') 1
      = ("Music Festival", "Annual music and arts festival", "Music Performance",
         carol, true, 5).
Proof.
  cbv zeta. eexists. split; [reflexivity|].
  refine (proj1 (getProjectInfo_after_propose (constructor deployer)
    "Music Festival" "Annual music and arts festival" "Music Performance" carol 5 _
    closed_round (reachable_init deployer) eq_refl)).
Defined.

(** ** Closing a round with votes *)

(** The outcome of [endVotingRound] for the administrator on an active,
    unrevealed round. *)
Lemma endVotingRound_admin s t :
  votingActive (round s (currentVotingRound s)) = true ->
  resultsRevealed (round s (currentVotingRound s)) = false ->
  (batch_of s (currentVotingRound s) <> [] ->
     exists s', endVotingRound (admin s) t s = OK s') /\
  (batch_of s (currentVotingRound s) = [] -> currentVotingRound s < 255 ->
     exists s', endVotingRound (admin s) t s = OK s') /\
  (batch_of s (currentVotingRound s) = [] -> 255 <= currentVotingRound s ->
     endVotingRound (admin s) t s = Revert ArithmeticPanic).
Proof.
  intros Hact Hrev. unfold endVotingRound, onlyAdmin.
  rewrite bool_decide_eq_true_2 by done. rewrite Hact, Hrev. simpl.
  set (s1 := update_round (currentVotingRound s) _ s).
  assert (round s1 (currentVotingRound s) =
    {| projectIds := projectIds (round s (currentVotingRound s)); votingActive := false;
       resultsRevealed := resultsRevealed (round s (currentVotingRound s));
       startTime := startTime (round s (currentVotingRound s)); endTime := t;
       voters := voters (round s (currentVotingRound s));
       winningProjectId := winningProjectId (round s (currentVotingRound s));
       maxScore := maxScore (round s (currentVotingRound s)) |}) as Hr1
    by (subst s1; by rewrite round_update_round_eq).
  unfold _requestResultsDecryption.
  change (currentVotingRound s1) with (currentVotingRound s).
  rewrite Hr1. simpl.
  change (fun pid v => hasVoted (vote s1 (currentVotingRound s) pid v))
    with (voted_in s (currentVotingRound s)).
  pose proof (batch_empty_iff s) as Hb.
  pose proof (finalize_spec 0 0 s1) as Hf. cbv zeta in Hf.
  change (currentVotingRound s1) with (currentVotingRound s) in Hf.
  destruct (0 <? count_votes _ _ _) eqn:Hc.
  - apply Z.ltb_lt in Hc. split; [intros _; by eexists|].
    split; intros He; apply Hb in He; lia.
  - apply Z.ltb_ge in Hc. rewrite count_votes_total in Hc.
    split; [intros Hne; exfalso; apply Hne, Hb; rewrite count_votes_total; lia|].
    split; intros _ Hlt.
    + rewrite (proj2 (Z.ltb_lt _ _) Hlt) in Hf. destruct Hf as (s' & -> & _). by eexists.
    + rewrite (proj2 (Z.ltb_ge _ _) Hlt) in Hf. exact Hf.
Qed.

(** X13. When the administrator closes an active round of a reachable storage
    in which at least one listed voter has voted, the call succeeds, whatever
    the round number: it hands exactly one batch to the oracle, the handles
    of the votes entry after entry in snapshot order and, within an entry, in
    voter order; the round is no longer active and not yet revealed, its end
    time is the time of the call, and the round counter, the votes, the voter
    list and the event log are unchanged. *)
Theorem endVotingRound_requests_batch s caller time :
  reachable s ->
  caller = admin s ->
  let c := currentVotingRound s in
  votingActive (round s c) = true ->
  batch_of s c <> [] ->
  exists s',
    endVotingRound caller time s = OK s' /\
    decryptionRequests s' = decryptionRequests s ++ [batch_of s c] /\
    currentVotingRound s' = c /\
    votingActive (round s' c) = false /\
    resultsRevealed (round s' c) = false /\
    endTime (round s' c) = time /\
    projectIds (round s' c) = projectIds (round s c) /\
    voters (round s' c) = voters (round s c) /\
    votes s' = votes s /\ events s' = events s /\
    batch_of s' c = batch_of s c.
Proof.
  intros Hreach -> c Hact Hne.
  pose proof (inv_unrevealed s (Inv_reachable s Hreach)) as Hrev. fold c in Hrev.
  destruct (endVotingRound_admin s time Hact Hrev) as ([s' Hs'] & _); [done|].
  exists s'. split; [done|].
  pose proof (endVotingRound_round _ _ _ _ Hs') as Hrd. cbv zeta in Hrd. fold c in Hrd.
  apply endVotingRound_OK in Hs'. cbv zeta in Hs'.
  destruct Hs' as (_ & _ & _ & Hv & _).
  destruct Hrd as [(Hcur & _ & Hr & Hev & Hdr)|(_ & Hz & _)].
  - rewrite Hdr, Hr. simpl. unfold c. rewrite collect_cts_batch.
    repeat split; try done.
    unfold batch_of, cast_handles, voted_in, vote. fold c. rewrite Hr, Hv. done.
  - exfalso. apply Hne. by apply batch_empty_iff.
Qed.

Lemma endVotingRound_requests_batch_witness :
  let s0 := run (open_round ++ [tx (SubmitVote 1 8) alice 15; tx (SubmitVote 2 9) bob 16])
              (constructor deployer) in
  exists s',
    endVotingRound deployer 17 s0 = OK s' /\
    decryptionRequests s' = [[Enc 8; Enc 9]] /\
    currentVotingRound s' = 1.
Proof.
  cbv zeta.
  set (s0 := run (open_round ++ [tx (SubmitVote 1 8) alice 15; tx (SubmitVote 2 9) bob 16])
               (constructor deployer)).
  assert (currentVotingRound s0 = 1) as Hr by (vm_compute; reflexivity).
  assert (batch_of s0 1 = [Enc 8; Enc 9]) as Hb by (vm_compute; reflexivity).
  pose proof (endVotingRound_requests_batch s0 deployer 17) as H. cbv zeta in H.
  rewrite Hr, Hb in H.
  destruct H as (s' & H1 & H2 & H3 & _).
  - apply reachable_run, reachable_init.
  - vm_compute. reflexivity.
  - vm_compute. reflexivity.
  - discriminate.
  - exists s'. split; [exact H1|]. split; [|exact H3].
    rewrite H2. vm_compute. reflexivity.
Defined.

(** X14. [endVotingRound] is refused to anyone but the administrator, and to
    the administrator when the current round is not active. In a reachable
    storage it never fails as already revealed; its only other failure is the
    arithmetic panic, in round 255 with no vote to count. After it has
    succeeded, a second [endVotingRound] fails, as unauthorized or as not
    active. *)
Theorem endVotingRound_checks s caller time :
  let c := currentVotingRound s in
  (caller <> admin s -> endVotingRound caller time s = Revert NotAuthorized) /\
  (caller = admin s -> votingActive (round s c) = false ->
     endVotingRound caller time s = Revert VotingNotActive) /\
  (reachable s -> forall e,
     endVotingRound caller time s = Revert e ->
     (e = NotAuthorized /\ caller <> admin s) \/
     (e = VotingNotActive /\ votingActive (round s c) = false) \/
     (e = ArithmeticPanic /\ c = 255 /\ batch_of s c = [])) /\
  (reachable s -> forall s',
     endVotingRound caller time s = OK s' ->
     forall caller' time',
     exists e, endVotingRound caller' time' s' = Revert e /\
               (e = NotAuthorized \/ e = VotingNotActive)).
Proof.
  intros c.
  assert (forall a t st, a <> admin st -> endVotingRound a t st = Revert NotAuthorized)
    as Hna.
  { intros a t st Hne. unfold endVotingRound, onlyAdmin.
    by rewrite bool_decide_eq_false_2. }
  assert (forall a t st, a = admin st ->
            votingActive (round st (currentVotingRound st)) = false ->
            endVotingRound a t st = Revert VotingNotActive) as Hnv.
  { intros a t st -> Hact. unfold endVotingRound, onlyAdmin.
    rewrite bool_decide_eq_true_2 by done. by rewrite Hact. }
  split; [apply Hna|]. split; [apply Hnv|]. split.
  - intros Hreach e He.
    pose proof (Inv_reachable s Hreach) as HI.
    destruct (decide (caller = admin s)) as [->|Hne];
      [|left; rewrite Hna in He by done; split; congruence].
    destruct (votingActive (round s c)) eqn:Hact;
      [|right; left; rewrite Hnv in He by done; split; congruence].
    right. right.
    destruct (endVotingRound_admin s time Hact (inv_unrevealed s HI)) as (H1 & H2 & H3).
    destruct (decide (batch_of s c = [])) as [Hb|Hb].
    + destruct (decide (c < 255)) as [Hlt|Hge].
      * destruct (H2 Hb Hlt) as [s' Hs']. congruence.
      * rewrite H3 in He by (done || unfold c in *; lia).
        pose proof (inv_round s HI). split; [congruence|]. split; [unfold c in *; lia | done].
    + destruct (H1 Hb) as [s' Hs']. congruence.
  - intros Hreach s' Hs' caller' time'.
    pose proof (Inv_reachable s Hreach) as HI.
    assert (votingActive (round s' (currentVotingRound s')) = false) as Hoff.
    { pose proof (endVotingRound_round _ _ _ _ Hs') as Hrd. cbv zeta in Hrd.
      apply endVotingRound_OK in Hs'. cbv zeta in Hs'.
      destruct Hs' as (_ & _ & _ & _ & _ & _ & _ & _ & _ & Hoth & _).
      destruct Hrd as [(-> & _ & -> & _)|(-> & _)]; [done|].
      rewrite Hoth by lia. by rewrite (inv_future s HI) by lia. }
    destruct (decide (caller' = admin s')) as [Heq|Hne].
    + exists VotingNotActive. split; [by apply Hnv | by right].
    + exists NotAuthorized. split; [by apply Hna | by left].
Qed.

Lemma endVotingRound_checks_witness :
  let s0 := run open_round (constructor deployer) in
  endVotingRound alice 17 s0 = Revert NotAuthorized /\
  exists s' e,
    endVotingRound deployer 17 s0 = OK s' /\
    endVotingRound deployer 18 s' = Revert e /\
    (e = NotAuthorized \/ e = VotingNotActive).
Proof.
  cbv zeta. set (s0 := run open_round (constructor deployer)).
  assert (admin s0 = deployer) as Ha by (vm_compute; reflexivity).
  split.
  - destruct (endVotingRound_checks s0 alice 17) as (H & _). apply H.
    rewrite Ha. discriminate.
  - set (s' := apply_tx s0 (tx EndVotingRound deployer 17)).
    assert (endVotingRound deployer 17 s0 = OK s') as Hs' by (vm_compute; reflexivity).
    destruct (endVotingRound_checks s0 deployer 17) as (_ & _ & _ & H).
    destruct (H (reachable_run open_round _ (reachable_init deployer)) s' Hs' deployer 18)
      as (e & He & Hor).
    exists s', e. split; [exact Hs'|]. split; [exact He | exact Hor].
Defined.

Lemma exec_stays_inactive t s s' :
  Inv s ->
  votingActive (round s (currentVotingRound s)) = false ->
  is_start t = false ->
  exec t s = OK s' ->
  votingActive (round s' (currentVotingRound s')) = false.
Proof.
  intros HI Hoff Hns H. unfold is_start in Hns. unfold exec in H.
  destruct (call t); try discriminate.
  - apply proposeProject_OK in H. destruct_and?.
    rewrite (round_ext s s') by congruence. congruence.
  - apply authorizeVoter_OK in H. destruct_and?.
    rewrite (round_ext s s') by congruence. congruence.
  - apply revokeVoter_OK in H. destruct_and?.
    rewrite (round_ext s s') by congruence. congruence.
  - apply submitVote_OK in H. destruct_and?. congruence.
  - apply endVotingRound_OK in H. cbv zeta in H. destruct_and?. congruence.
  - apply processResults_OK in H as (w & _ & H). apply finalize_OK in H.
    cbv zeta in H. destruct H as (_ & -> & _ & _ & _ & _ & _ & Hoth & _).
    rewrite Hoth by lia. by rewrite (inv_future s HI) by lia.
Qed.

(** X15. After a successful [endVotingRound] on a reachable storage, every
    [submitVote], by any caller, for any entry and score, fails, as
    unauthorized or as not active, and keeps failing through any later calls
    until [startVotingRound] is called. *)
Theorem submitVote_after_close s caller time s1 txs :
  reachable s ->
  endVotingRound caller time s = OK s1 ->
  forallb (fun t => negb (is_start t)) txs = true ->
  forall pid score v time',
  exists e,
    submitVote pid score v time' (run txs s1) = Revert e /\
    (e = NotAuthorizedToVote \/ e = VotingNotActive).
Proof.
  intros Hreach H Hns pid score v time'.
  assert (reachable s1) as Hreach1.
  { replace s1 with (apply_tx s (tx EndVotingRound caller time));
      [by constructor|]. unfold apply_tx, exec. simpl. by rewrite H. }
  assert (votingActive (round s1 (currentVotingRound s1)) = false) as Hoff.
  { pose proof (Inv_reachable s Hreach) as HI.
    pose proof (endVotingRound_round _ _ _ _ H) as Hrd. cbv zeta in Hrd.
    apply endVotingRound_OK in H. cbv zeta in H.
    destruct H as (_ & _ & _ & _ & _ & _ & _ & _ & _ & Hoth & _).
    destruct Hrd as [(-> & _ & -> & _)|(-> & _)]; [done|].
    rewrite Hoth by lia. by rewrite (inv_future s HI) by lia. }
  assert (votingActive (round (run txs s1) (currentVotingRound (run txs s1))) = false)
    as Hend.
  { clear H Hreach. revert s1 Hreach1 Hoff.
    induction txs as [|t txs IH]; intros s1 Hreach1 Hoff; simpl; [done|].
    simpl in Hns. apply andb_true_iff in Hns as [Ht Hns]. apply negb_true_iff in Ht.
    apply (IH Hns); [by constructor|].
    unfold apply_tx. destruct (exec t s1) as [s2|e] eqn:E; [|done].
    by apply (exec_stays_inactive t s1 s2 (Inv_reachable s1 Hreach1)). }
  unfold submitVote, onlyAuthorizedVoter, onlyDuringVoting. rewrite Hend.
  destruct (authorized (run txs s1) v); simpl; eexists; (split; [done|]); auto.
Qed.

Lemma submitVote_after_close_witness :
  let s0 := run (open_round ++ [tx (SubmitVote 1 8) alice 15]) (constructor deployer) in
  exists s1 e,
    endVotingRound deployer 17 s0 = OK s1 /\
    submitVote 2 9 bob 19
      (run [tx (ProposeProject "Project C" "Description C" "Category C") carol 18] s1)
      = Revert e /\
    (e = NotAuthorizedToVote \/ e = VotingNotActive).
Proof.
  cbv zeta.
  set (s0 := run (open_round ++ [tx (SubmitVote 1 8) alice 15]) (constructor deployer)).
  set (s1 := apply_tx s0 (tx EndVotingRound deployer 17)).
  assert (endVotingRound deployer 17 s0 = OK s1) as H1 by (vm_compute; reflexivity).
  destruct (submitVote_after_close s0 deployer 17 s1
    [tx (ProposeProject "Project C" "Description C" "Category C") carol 18]
    (reachable_run _ _ (reachable_init deployer)) H1 eq_refl 2 9 bob 19) as (e & He & Hor).
  exists s1, e. split; [exact H1|]. split; [exact He | exact Hor].
Defined.

(** X16. The vote counts of the entries of the current round add up to the
    size of the batch that closing the round hands to the oracle; the batch
    is empty exactly when every entry of the round has a count of zero. *)
Theorem vote_counts_sum_to_batch s :
  let c := currentVotingRound s in
  sumZ (map (getProjectVoteCount s) (getCurrentRoundProjectIds s))
    = Z.of_nat (length (batch_of s c)) /\
  (batch_of s c = [] <->
   forall pid, pid ∈ getCurrentRoundProjectIds s -> getProjectVoteCount s pid = 0).
Proof.
  intros c. unfold getCurrentRoundProjectIds, batch_of. fold c.
  induction (projectIds (round s c)) as [|pid ids [IH1 IH2]]; simpl.
  - split; [done|]. split; [by intros _ pid ?%elem_of_nil | done].
  - rewrite length_app, IH1, getProjectVoteCount_ballots, cast_handles_length.
    fold c. split; [lia|].
    pose proof (cast_handles_length s c pid) as Hlen.
    split.
    + intros [H1 H2]%app_eq_nil pid' Hin. apply elem_of_cons in Hin as [->|Hin].
      * rewrite getProjectVoteCount_ballots. fold c. rewrite <- Hlen, H1. done.
      * by apply IH2.
    + intros Hall. apply app_nil. split.
      * specialize (Hall pid ltac:(apply elem_of_cons; by left)).
        rewrite getProjectVoteCount_ballots in Hall. fold c in Hall.
        rewrite <- Hlen in Hall. destruct (cast_handles s c pid); [done|simpl in Hall; lia].
      * apply IH2. intros pid' Hin. apply Hall, elem_of_cons. by right.
Qed.

Lemma vote_counts_sum_to_batch_witness :
  let s := run closed_round (constructor deployer) in
  sumZ (map (getProjectVoteCount s) (getCurrentRoundProjectIds s)) = 2 /\
  length (batch_of s (currentVotingRound s)) = 2%nat.
Proof.
  cbv zeta. split; [|vm_compute; reflexivity].
  rewrite (proj1 (vote_counts_sum_to_batch (run closed_round (constructor deployer)))).
  vm_compute. reflexivity.
Defined.

(** ** An oracle that returns the plaintexts of the batch *)

Lemma cast_handles_range s r pid :
  Ledger s -> Forall (fun x => 1 <= x <= 10) (map decrypt (cast_handles s r pid)).
Proof.
  intros HL. unfold cast_handles. rewrite map_map.
  apply List.Forall_map, List.Forall_forall. intros v [_ Hv]%List.filter_In.
  destruct (voted_stored s r pid v HL Hv) as (sc & -> & Hsc). exact Hsc.
Qed.

Lemma sumZ_range l :
  Forall (fun x => 1 <= x <= 10) l ->
  Z.of_nat (length l) <= sumZ l <= 10 * Z.of_nat (length l).
Proof. induction 1 as [|x l Hx _ IH]; simpl; lia. Qed.

Lemma score_sum_range s r pid :
  Ledger s ->
  Z.of_nat (ballots (voted_in s r pid) (voters (round s r)))
    <= score_sum s r pid
    <= 10 * Z.of_nat (ballots (voted_in s r pid) (voters (round s r))).
Proof.
  intros HL. unfold score_sum.
  pose proof (sumZ_range _ (cast_handles_range s r pid HL)) as H.
  by rewrite length_map, cast_handles_length in H.
Qed.

Lemma batch_range s r :
  Ledger s -> Forall uint8 (map decrypt (batch_of s r)).
Proof.
  intros HL. unfold batch_of.
  induction (projectIds (round s r)) as [|pid ids IH]; simpl; [constructor|].
  rewrite map_app. apply Forall_app. split; [|exact IH].
  eapply Forall_impl; [apply (cast_handles_range s r pid HL)|].
  simpl. unfold uint8. intros; lia.
Qed.

Lemma sumZ_perm l k : l ≡ₚ k -> sumZ l = sumZ k.
Proof. induction 1; simpl; lia. Qed.

(** Unless the round was opened again after votes were cast, every vote of
    the round belongs to a listed voter, and the sum over the listed voters
    is the sum over everyone who holds a vote for the entry. *)
Lemma score_sum_all s r pid (everyone : list address) :
  Ledger s ->
  NoDup everyone ->
  (forall v, v ∈ everyone <-> hasVoted (vote s r pid v) = true) ->
  (forall v, hasVoted (vote s r pid v) = true -> v ∈ voters (round s r)) ->
  score_sum s r pid
    = sumZ (map (fun v => decrypt (encryptedScore (vote s r pid v))) everyone).
Proof.
  intros HL Hnd Hall Hlisted. unfold score_sum, cast_handles. rewrite map_map.
  apply sumZ_perm, Permutation_map, NoDup_Permutation.
  - apply NoDup_ListNoDup, List.NoDup_filter, NoDup_ListNoDup, (led_nodup s HL).
  - exact Hnd.
  - intros v. rewrite Hall, list_elem_of_In, List.filter_In, <- list_elem_of_In.
    unfold voted_in. split; [by intros [_ ?] | intros Hv; split; [by apply Hlisted | done]].
Qed.

(** X17. When the oracle answers with the plaintexts of the batch of the
    current round, in a reachable storage with at most 25 listed voters and
    the counter below 255, [processResults] succeeds. The batch holds the
    votes that the listed voters of the round hold for its entries; right
    after the close it is the request last sent. The stored maximum is the
    largest per-entry sum of the scores of these votes, the stored winner is
    the first entry of the snapshot that reaches it (0 when the batch is
    empty), the maximum is positive as soon as the batch is not empty, and the
    counter moves on by one. The votes of a voter who is no longer listed,
    the round having been opened again, are not counted; when every vote of
    the round for an entry belongs to a listed voter, the sum for that entry
    is the sum of all the scores cast for it. *)
Theorem processResults_honest_oracle s rid sigs caller time :
  reachable s ->
  let c := currentVotingRound s in
  let ids := projectIds (round s c) in
  let sums := map (score_sum s c) ids in
  (length (voters (round s c)) <= 25)%nat ->
  c < 255 ->
  (exists s',
     processResults rid (map decrypt (batch_of s c)) sigs caller time s = OK s' /\
     maxScore (round s' c) = max_aggregate sums /\
     winningProjectId (round s' c)
       = (if 0 <? max_aggregate sums then first_max_entry ids sums else 0) /\
     (batch_of s c <> [] -> 0 < max_aggregate sums) /\
     resultsRevealed (round s' c) = true /\
     currentVotingRound s' = c + 1) /\
  (forall s0 a t,
     endVotingRound a t s0 = OK s -> currentVotingRound s = currentVotingRound s0 ->
     last (decryptionRequests s) = Some (batch_of s c)) /\
  (forall pid everyone,
     NoDup everyone ->
     (forall v, v ∈ everyone <-> hasUserVotedForProject s pid v = true) ->
     (forall v, hasUserVotedForProject s pid v = true -> v ∈ voters (round s c)) ->
     score_sum s c pid
       = sumZ (map (fun v => decrypt (encryptedScore (vote s c pid v))) everyone)).
Proof.
  intros Hreach c ids sums Hvs Hc.
  pose proof (Ledger_reachable s Hreach) as HL.
  split; [|split].
  2: { intros s0 a t H Hcur.
       destruct (endVotingRound_request a t s0 s H Hcur) as (_ & _ & ->).
       apply last_snoc. }
  2: { intros pid everyone Hnd Hall Hlisted. by apply score_sum_all. }
  pose proof (batch_range s c HL) as Hs.
  rewrite processResults_unfold. fold c. fold ids.
  rewrite (tally_spec _ Hs (voters (round s c)) (voted_in s c) ids). cbv zeta.
  assert (aggregates (voted_in s c) (voters (round s c)) ids
            (map decrypt (batch_of s c)) = sums) as ->.
  { rewrite <- (app_nil_r (map decrypt (batch_of s c))).
    apply (aggregates_batch s c ids []). }
  assert (fits8 sums = true) as ->.
  { apply fits8_Forall. subst sums. apply List.Forall_map, List.Forall_forall.
    intros pid _. pose proof (score_sum_range s c pid HL) as Hr.
    pose proof (ballots_le (voted_in s c pid) (voters (round s c))). lia. }
  simpl.
  pose proof (finalize_spec
    (if 0 <? max_aggregate sums then first_max_entry ids sums else 0)
    (max_aggregate sums) s) as Hfin.
  cbv zeta in Hfin. fold c in Hfin.
  apply Z.ltb_lt in Hc. rewrite Hc in Hfin.
  destruct Hfin as (s' & Hok & Hcur & Hrev & Hw & Hm & _).
  exists s'. split; [exact Hok|]. split; [exact Hm|]. split; [exact Hw|].
  split; [|by split].
  intros Hne.
  assert (exists pid, pid ∈ ids /\ cast_handles s c pid <> []) as (pid & Hin & Hpid).
  { unfold batch_of in Hne. fold ids in Hne. clear -Hne.
    induction ids as [|pid ids IH]; simpl in Hne; [done|].
    destruct (cast_handles s c pid) eqn:E.
    - destruct (IH Hne) as (p & Hp & Hp'). exists p. split; [|done].
      apply elem_of_cons. by right.
    - exists pid. split; [apply elem_of_cons; by left | by rewrite E]. }
  pose proof (score_sum_range s c pid HL) as Hr.
  rewrite <- cast_handles_length in Hr.
  assert (1 <= score_sum s c pid) as Hone.
  { destruct (cast_handles s c pid); [done | simpl in Hr; lia]. }
  pose proof (max_aggregate_bound sums) as Hb.
  rewrite List.Forall_forall in Hb.
  assert (score_sum s c pid <= max_aggregate sums).
  { apply Hb. subst sums. apply List.in_map. by apply list_elem_of_In. }
  lia.
Qed.

Lemma processResults_honest_oracle_witness :
  let s := run closed_round (constructor deployer) in
  last (decryptionRequests s) = Some [Enc 8; Enc 9] /\
  exists s',
    processResults 0 (map decrypt (batch_of s (currentVotingRound s))) [] oracle 30 s
      = OK s' /\
    maxScore (round s' (currentVotingRound s))
      = max_aggregate (map (score_sum s (currentVotingRound s))
                         (projectIds (round s (currentVotingRound s)))).
Proof.
  cbv zeta.
  destruct (processResults_honest_oracle (run closed_round (constructor deployer))
    0 [] oracle 30 (reachable_run _ _ (reachable_init deployer)))
    as ((s' & H1 & H2 & _) & Hlast & _).
  - vm_compute. lia.
  - vm_compute. reflexivity.
  - split.
    + rewrite (Hlast (run (open_round ++ [tx (SubmitVote 1 8) alice 15;
                                           tx (SubmitVote 2 9) bob 16])
                        (constructor deployer)) deployer 17).
      * vm_compute. reflexivity.
      * vm_compute. reflexivity.
      * vm_compute. reflexivity.
    + exists s'. split; [exact H1 | exact H2].
Defined.

(** The votes of a voter who is no longer listed are not counted: the closed
    round is opened again, Bob gives 5 to entry 1 and the round is closed;
    Alice's 8 for entry 1 is still stored, but the batch holds Bob's votes
    only and the answer to it makes entry 2 the winner with 9. *)
Lemma processResults_after_reopen :
  let s := run (closed_round ++
                [tx (StartVotingRound [1; 2]) deployer 18;
                 tx (SubmitVote 1 5) bob 19;
                 tx EndVotingRound deployer 20]) (constructor deployer) in
  let s' := apply_tx s (tx (ProcessResults 1 [5; 9] []) oracle 21) in
  hasUserVotedForProject s 1 alice = true /\
  voters (round s 1) = [bob] /\
  batch_of s 1 = [Enc 5; Enc 9] /\
  map (score_sum s 1) [1; 2] = [5; 9] /\
  winningProjectId (round s' 1) = 2 /\ maxScore (round s' 1) = 9.
Proof.
  cbv zeta. split; [|split; [|split; [|split; [|split]]]]; vm_compute; reflexivity.
Qed.

(** ** The views after the counter has moved *)

Lemma exec_counter_moves t s s' :
  exec t s = OK s' ->
  currentVotingRound s' <> currentVotingRound s ->
  currentVotingRound s' = currentVotingRound s + 1 /\
  votes s' = votes s /\
  forall r, r <> currentVotingRound s -> round s' r = round s r.
Proof.
  intros H Hne. exec_cases H; try congruence.
  - split; [|split; [congruence | assumption]].
    match goal with
    | Hd : _ \/ _ |- _ => destruct Hd as [[Hd _]|[Hd _]]; [congruence | exact Hd]
    end.
  - split; [assumption|]. split; [congruence|]. assumption.
Qed.

(** X18. Whenever a call moves the round counter of a reachable storage, the
    counter grows by exactly one and the views of the current round show a
    blank round: not active, not revealed, no times, no entries, no vote
    counts and no vote status for anyone. *)
Theorem views_blank_after_counter_moves s t s' :
  reachable s ->
  exec t s = OK s' ->
  currentVotingRound s' <> currentVotingRound s ->
  getCurrentRoundInfo s' = (currentVotingRound s + 1, false, false, 0, 0, []) /\
  getCurrentRoundProjectIds s' = [] /\
  forall pid v,
    getProjectVoteCount s' pid = 0 /\
    getVoteStatus s' pid v = (false, 0) /\
    hasUserVotedForProject s' pid v = false.
Proof.
  intros Hreach H Hne.
  pose proof (Inv_reachable s Hreach) as HI.
  pose proof (Ledger_reachable s Hreach) as HL.
  destruct (exec_counter_moves t s s' H Hne) as (Hc & Hv & Hoth).
  assert (round s' (currentVotingRound s') = zeroRound) as Hrd.
  { rewrite Hc, Hoth by lia. apply (inv_future s HI). lia. }
  assert (forall pid v, vote s' (currentVotingRound s') pid v = zeroVote) as Hvote.
  { intros pid v. unfold vote. rewrite Hv, Hc.
    destruct (votes s !! (currentVotingRound s + 1, pid, v)) as [x|] eqn:E; [|done].
    destruct (led_votes s HL _ _ _ _ E) as (_ & _ & Hr & _). lia. }
  unfold getCurrentRoundInfo, getCurrentRoundProjectIds, getProjectVoteCount,
    getVoteStatus, hasUserVotedForProject.
  rewrite Hrd. simpl. split; [by rewrite Hc|]. split; [done|].
  intros pid v. by rewrite Hvote.
Qed.

Lemma views_blank_after_counter_moves_witness :
  let s := run closed_round (constructor deployer) in
  let s' := apply_tx s (tx (ProcessResults 0 [8; 9] []) oracle 30) in
  getCurrentRoundInfo s' = (currentVotingRound s + 1, false, false, 0, 0, []) /\
  getCurrentRoundProjectIds s' = [] /\
  forall pid v,
    getProjectVoteCount s' pid = 0 /\
    getVoteStatus s' pid v = (false, 0) /\
    hasUserVotedForProject s' pid v = false.
Proof.
  cbv zeta.
  apply (views_blank_after_counter_moves _ (tx (ProcessResults 0 [8; 9] []) oracle 30)).
  - apply reachable_run, reachable_init.
  - vm_compute. reflexivity.
  - vm_compute. discriminate.
Defined.

(** ** Opening a round again *)

(** X19. A successful [startVotingRound] keeps the round number and the
    stored votes but empties the voter list, also when it opens again a round
    that was closed with votes pending: every vote count of the round reads 0
    and the batch is empty, while the vote status of each voter reads as
    before, so a voter who had voted for an entry cannot vote for it again. *)
Theorem startVotingRound_restart s ids caller time s' :
  startVotingRound ids caller time s = OK s' ->
  currentVotingRound s' = currentVotingRound s /\
  getCurrentRoundProjectIds s' = ids /\
  batch_of s' (currentVotingRound s') = [] /\
  (forall pid, getProjectVoteCount s' pid = 0) /\
  (forall pid v,
     getVoteStatus s' pid v = getVoteStatus s pid v /\
     hasUserVotedForProject s' pid v = hasUserVotedForProject s pid v) /\
  (forall pid score v time',
     hasUserVotedForProject s pid v = true ->
     exists e,
       submitVote pid score v time' s' = Revert e /\
       (authorized s' v = true -> 1 <= score <= 10 -> pid ∈ ids -> e = AlreadyVoted)).
Proof.
  intros H. apply startVotingRound_OK in H
    as (_ & _ & Hvr & _ & _ & _ & Hv & _ & Hc & _).
  assert (round s' (currentVotingRound s') =
    {| projectIds := ids; votingActive := true; resultsRevealed := false;
       startTime := time; endTime := 0; voters := [];
       winningProjectId := 0; maxScore := 0 |}) as Hrd.
  { unfold round. by rewrite Hvr, Hc, lookup_insert_eq. }
  assert (forall pid v, vote s' (currentVotingRound s') pid v
                        = vote s (currentVotingRound s) pid v) as Hvote.
  { intros pid v. unfold vote. by rewrite Hv, Hc. }
  split; [exact Hc|].
  split; [unfold getCurrentRoundProjectIds; by rewrite Hrd|].
  split.
  { unfold batch_of, cast_handles. rewrite Hrd. simpl.
    clear. induction ids as [|pid ids IH]; simpl; done. }
  split; [intros pid; unfold getProjectVoteCount; by rewrite Hrd|].
  split.
  { intros pid v. unfold getVoteStatus, hasUserVotedForProject. by rewrite Hvote. }
  intros pid score v time' Hvoted. unfold hasUserVotedForProject in Hvoted.
  rewrite <- Hvote in Hvoted.
  destruct (submitVote_again s' pid score v time' Hvoted) as (e & He & Hwhy).
  exists e. split; [exact He|]. intros Hauth Hsc Hin.
  apply Hwhy; [exact Hauth | by rewrite Hrd | exact Hsc |].
  unfold _isProjectInCurrentRound. apply isProjectInRound_elem. by rewrite Hrd.
Qed.

Lemma startVotingRound_restart_witness :
  let s := run closed_round (constructor deployer) in
  exists s',
    startVotingRound [1; 2] deployer 18 s = OK s' /\
    currentVotingRound s' = 1 /\
    getProjectVoteCount s' 1 = 0 /\
    hasUserVotedForProject s' 1 alice = true /\
    submitVote 1 7 alice 19 s' = Revert AlreadyVoted.
Proof.
  cbv zeta.
  set (s := run closed_round (constructor deployer)).
  set (s' := apply_tx s (tx (StartVotingRound [1; 2]) deployer 18)).
  assert (startVotingRound [1; 2] deployer 18 s = OK s') as H
    by (vm_compute; reflexivity).
  destruct (startVotingRound_restart s [1; 2] deployer 18 s' H)
    as (Hc & _ & _ & Hcount & Hstatus & Hagain).
  assert (hasUserVotedForProject s 1 alice = true) as Hv by (vm_compute; reflexivity).
  exists s'. split; [exact H|].
  split; [rewrite Hc; vm_compute; reflexivity|].
  split; [apply Hcount|].
  split; [rewrite (proj2 (Hstatus 1 alice)); exact Hv|].
  destruct (Hagain 1 7 alice 19 Hv) as (e & He & Hwhy).
  rewrite He. f_equal. apply Hwhy.
  - vm_compute. reflexivity.
  - lia.
  - apply elem_of_cons. by left.
Defined.

(** ** The requests sent to the oracle *)

Lemma batch_handles s r :
  Ledger s ->
  Forall (fun h => exists sc, h = Enc sc /\ 1 <= sc <= 10) (batch_of s r).
Proof.
  intros HL. unfold batch_of.
  induction (projectIds (round s r)) as [|pid ids IH]; simpl; [constructor|].
  apply Forall_app. split; [|exact IH].
  unfold cast_handles. apply List.Forall_map, List.Forall_forall.
  intros v [_ Hv]%List.filter_In. by apply voted_stored.
Qed.

Lemma exec_requests t s s' :
  exec t s = OK s' ->
  decryptionRequests s' = decryptionRequests s \/
  (call t = EndVotingRound /\
   batch_of s (currentVotingRound s) <> [] /\
   decryptionRequests s' = decryptionRequests s ++ [batch_of s (currentVotingRound s)]).
Proof.
  intros H. unfold exec in H. destruct (call t) eqn:Ec.
  - apply proposeProject_OK in H. destruct_and?. by left.
  - apply authorizeVoter_OK in H. destruct_and?. by left.
  - apply revokeVoter_OK in H. destruct_and?. by left.
  - apply startVotingRound_OK in H. destruct_and?. by left.
  - apply submitVote_OK in H. destruct_and?. by left.
  - apply endVotingRound_round in H. cbv zeta in H.
    destruct H as [(_ & Hpos & _ & _ & Hreq)|(_ & _ & _ & _ & Hreq)]; [|by left].
    right. split; [done|]. rewrite collect_cts_batch in Hreq. split; [|exact Hreq].
    intros Hnil%batch_empty_iff. lia.
  - apply processResults_OK in H as (w & _ & H). apply finalize_OK in H.
    cbv zeta in H. destruct_and?. by left.
Qed.

(** X20. Requests to the oracle are issued by [endVotingRound] only, one per
    call at most, and each one carries the batch of the round being closed.
    In a reachable storage every request ever issued is a non-empty list of
    initialised handles that hold scores between 1 and 10. *)
Theorem decryption_requests_wellformed s :
  reachable s ->
  Forall (fun b => b <> [] /\
                   Forall (fun h => exists sc, h = Enc sc /\ 1 <= sc <= 10) b)
    (decryptionRequests s) /\
  forall t s',
    exec t s = OK s' ->
    decryptionRequests s' = decryptionRequests s \/
    (call t = EndVotingRound /\
     decryptionRequests s' = decryptionRequests s ++ [batch_of s (currentVotingRound s)]).
Proof.
  intros Hreach. split.
  - induction Hreach as [d|s t Hreach IH]; [constructor|].
    unfold apply_tx. destruct (exec t s) as [s'|e] eqn:E; [|exact IH].
    destruct (exec_requests t s s' E) as [->|(_ & Hne & ->)]; [exact IH|].
    apply Forall_app. split; [exact IH|]. constructor; [|constructor].
    split; [exact Hne|]. apply batch_handles, Ledger_reachable, Hreach.
  - intros t s' H.
    destruct (exec_requests t s s' H) as [Heq|(Hc & _ & Heq)]; [by left | by right].
Qed.

Lemma decryption_requests_wellformed_witness :
  decryptionRequests (run closed_round (constructor deployer)) = [[Enc 8; Enc 9]] /\
  Forall (fun b => b <> [] /\
                   Forall (fun h => exists sc, h = Enc sc /\ 1 <= sc <= 10) b)
    (decryptionRequests (run closed_round (constructor deployer))).
Proof.
  split; [vm_compute; reflexivity|].
  apply (decryption_requests_wellformed (run closed_round (constructor deployer))).
  apply reachable_run, reachable_init.
Defined.
